(** * Speculative sampling with a key/value cache

    A shallow embedding of the decoding routines of
    [notebooks/speculative-sampling/speculative-sampling.ipynb]:
    [update_state], [autoregressive_sampling_with_pkv] and
    [speculative_sampling_with_pkv], together with the part of the
    inference service they call ([create_infer_request], [infer],
    [query_state], [results]). *)

From Stdlib Require Import List ZArith Arith Bool Lia.
Import ListNotations.

Set Implicit Arguments.

(** ** Python outcomes *)

(** The exceptions a call of the routines can end in: indexing an empty
    logits axis or a list out of range, reading the loop variable
    [disagree_idx] before any binding, reshaping an empty array to
    [[-1, 0]], and a failure of the inference service. *)
Inductive exn : Type :=
| IndexError
| UnboundLocalError
| ValueError
| RuntimeError.

(** A call returns a value, raises, or (for the fuelled [while] loops
    below) has not finished within the fuel it was given. *)
Inductive result (A : Type) : Type :=
| Ok (a : A)
| Raise (e : exn)
| OutOfFuel.

Arguments Ok {A} a.
Arguments Raise {A} e.
Arguments OutOfFuel {A}.

Definition bind {A B : Type} (m : result A) (k : A -> result B) : result B :=
  match m with
  | Ok a => k a
  | Raise e => Raise e
  | OutOfFuel => OutOfFuel
  end.

Notation "x <- m ;; k" := (bind m (fun x => k))
  (at level 61, m at next level, right associativity).

(** ** Tokens, tensors and the inference service *)

(** Token ids are the [int64] values produced by [np.argmax]. *)
Definition token : Type := Z.

(** Modelled from the spec: the inference service is the runtime
    library's, not this repository's; the routines only see it through
    [create_infer_request], [infer], [query_state] and [results].  Its
    caches and logits are modelled from the contracts of the draft
    generator and of the verifier (a call appends one cache position per
    input token, and the prediction at an input position is what the
    model would choose after the sequence up to and including it).

    One slice of a state tensor along its sequence axis (axis 2): the
    numeric keys and values are represented by what the model computed
    them from, the input id and the position id fed at that place. *)
Record entry : Type := Entry { e_tok : token; e_pos : nat }.

(** Modelled from the spec: a compiled model is a black box, given by
    the number of state variables of its requests and by the greedy
    choice [np.argmax] makes over the logits of one position, as a
    function of what every state holds up to and including that position
    and of the attention mask passed to the call. *)
Record Model : Type := {
  n_states : nat;
  predict : list (list entry) -> list Z -> token
}.

(** The slices a call appends to every state: one per input id that has
    a position id. *)
Definition fed_entries (ids : list token) (pos : list nat) : list entry :=
  map (fun p => Entry (fst p) (snd p)) (combine ids pos).

(** The input ids a state was computed from. *)
Definition tokens_of (state : list entry) : list token := map e_tok state.

(** Every state has [n] slices along the sequence axis. *)
Definition all_length (n : nat) (sts : list (list entry)) : Prop :=
  Forall (fun s => length s = n) sts.

(** The arguments of one [infer] call (the beam index [np.array([0])] is
    constant and left out). *)
Record call : Type := {
  c_input_ids : list token;
  c_attention_mask : list Z;
  c_position_ids : list nat
}.

(** Modelled from the spec: an inference request, with its model, the
    state tensors listed by [query_state()] (each as the list of its
    slices along axis 2), the argmax of [results["logits"]] at every
    input position of the last call, and the log of the calls issued so
    far. *)
Record InferRequest : Type := {
  req_model : Model;
  query_state : list (list entry);
  results : list token;
  calls : list call
}.

(** Modelled from the spec: a fresh request has empty states. *)
Definition create_infer_request (m : Model) : InferRequest :=
  {| req_model := m;
     query_state := repeat [] (n_states m);
     results := [];
     calls := [] |}.

(** Modelled from the spec: the effect on a request of a call whose
    input ids and position ids agree in number.  Every state grows by
    the fed positions, and the logits of input position [i] see the
    states extended up to that position. *)
Definition forward (r : InferRequest) (input_ids : list token)
    (attention_mask : list Z) (position_ids : list nat) : InferRequest :=
  let fed := fed_entries input_ids position_ids in
  {| req_model := req_model r;
     query_state := map (fun s => s ++ fed) (query_state r);
     results :=
       map (fun i =>
              predict (req_model r)
                (map (fun s => s ++ firstn (S i) fed) (query_state r))
                attention_mask)
           (seq 0 (length fed));
     calls := calls r ++ [ {| c_input_ids := input_ids;
                              c_attention_mask := attention_mask;
                              c_position_ids := position_ids |} ] |}.

(** Modelled from the spec:
    [request.infer((input_ids, attention_mask, position_ids, beam))].
    Input ids and position ids that differ in number are a shape
    mismatch, which is a fatal inference failure; otherwise the call has
    the effect [forward] describes. *)
Definition infer (r : InferRequest) (input_ids : list token)
    (attention_mask : list Z) (position_ids : list nat) : result InferRequest :=
  if length input_ids =? length position_ids
  then Ok (forward r input_ids attention_mask position_ids)
  else Raise RuntimeError.

(** [np.arange(0, seq_len, dtype=np.int64).reshape([-1, seq_len])]: the
    positions [0 .. seq_len - 1] as one row; with [seq_len = 0] the
    reshape to [[-1, 0]] raises. *)
Definition prompt_position_ids (seq_len : nat) : result (list nat) :=
  match seq_len with
  | O => Raise ValueError
  | S _ => Ok (seq 0 seq_len)
  end.

(** [logits[:, -1]] followed by [np.argmax]: the prediction at the last
    input position; an empty axis raises. *)
Fixpoint last_logit (l : list token) : result token :=
  match l with
  | [] => Raise IndexError
  | [t] => Ok t
  | _ :: l' => last_logit l'
  end.

(** ** [update_state] *)

(** The body of the [for state in request.query_state()] loop:
    [if seq_len >= old_seq_len: continue], otherwise the state is
    replaced by [state.data[:, :, :seq_len]]. *)
Definition trim_state (seq_len : nat) (state : list entry) : list entry :=
  let old_seq_len := length state in
  if old_seq_len <=? seq_len then state else firstn seq_len state.

Definition update_state (request : InferRequest) (seq_len : nat) : InferRequest :=
  {| req_model := req_model request;
     query_state := map (trim_state seq_len) (query_state request);
     results := results request;
     calls := calls request |}.

(** ** [autoregressive_sampling_with_pkv] *)

(** The tokenizer output passed as [input]. *)
Record Tokenized : Type := {
  input_ids : list token;
  attention_mask : list Z
}.

(** The local variables of the routine that live across statements.
    The integer arguments [N] and [K] of the routines are taken to be
    non-negative. *)
Record ARState : Type := {
  ar_attention_mask : list Z;
  ar_seq_len : nat;
  ar_request : InferRequest;
  ar_next_token : token;
  ar_all_tokens : list token
}.

(** Everything before the [while]: the whole prompt is fed at positions
    [0 .. seq_len-1] and the first token is read off the last logits. *)
Definition ar_prime (input : Tokenized) (model : Model) : result ARState :=
  let seq_len := length (input_ids input) in
  position_ids <- prompt_position_ids seq_len ;;
  request <- infer (create_infer_request model) (input_ids input)
                   (attention_mask input) position_ids ;;
  next_token <- last_logit (results request) ;;
  Ok {| ar_attention_mask := attention_mask input;
        ar_seq_len := seq_len;
        ar_request := request;
        ar_next_token := next_token;
        ar_all_tokens := input_ids input ++ [next_token] |}.

(** One pass through the body of [while seq_len < N]. *)
Definition ar_body (st : ARState) : result ARState :=
  let input_ids := [ar_next_token st] in
  let attention_mask := ar_attention_mask st ++ [1%Z] in
  let position_ids := [length attention_mask] in
  request <- infer (ar_request st) input_ids attention_mask position_ids ;;
  next_token <- last_logit (results request) ;;
  Ok {| ar_attention_mask := attention_mask;
        ar_seq_len := ar_seq_len st + 1;
        ar_request := request;
        ar_next_token := next_token;
        ar_all_tokens := ar_all_tokens st ++ [next_token] |}.

Fixpoint ar_while (fuel N : nat) (st : ARState) : result ARState :=
  if ar_seq_len st <? N then
    match fuel with
    | O => OutOfFuel
    | S fuel' => st' <- ar_body st ;; ar_while fuel' N st'
    end
  else Ok st.

(** The routine up to its [return], keeping the final local state. *)
Definition ar_run (input : Tokenized) (model : Model) (N : nat) : result ARState :=
  st0 <- ar_prime input model ;;
  ar_while (N - ar_seq_len st0) N st0.

Definition autoregressive_sampling_with_pkv (input : Tokenized) (model : Model)
    (N : nat) : result (list token) :=
  st <- ar_run input model N ;;
  Ok (ar_all_tokens st).

(** ** [speculative_sampling_with_pkv] *)

(** The local variables of the routine that live across statements;
    [disagree_idx] has no binding until the comparison loop has run over
    at least one pair. *)
Record SpecState : Type := {
  sp_attention_mask : list Z;
  sp_seq_len : nat;
  sp_draft_request : InferRequest;
  sp_main_request : InferRequest;
  sp_first_token : token;
  sp_next_token : token;
  sp_all_tokens : list token;
  sp_accum_draft_tokens : list token;
  sp_next_tokens : list token;
  sp_disagree_idx : option nat
}.

(** Everything before the [while]: both models run once on the prompt;
    only the main model's last logits are read. *)
Definition sp_prime (input : Tokenized) (draft_model main_model : Model)
  : result SpecState :=
  let seq_len := length (input_ids input) in
  position_ids <- prompt_position_ids seq_len ;;
  draft_request <- infer (create_infer_request draft_model) (input_ids input)
                         (attention_mask input) position_ids ;;
  main_request <- infer (create_infer_request main_model) (input_ids input)
                        (attention_mask input) position_ids ;;
  first_token <- last_logit (results main_request) ;;
  Ok {| sp_attention_mask := attention_mask input;
        sp_seq_len := seq_len;
        sp_draft_request := draft_request;
        sp_main_request := main_request;
        sp_first_token := first_token;
        sp_next_token := first_token;
        sp_all_tokens := input_ids input ++ [first_token];
        sp_accum_draft_tokens := [];
        sp_next_tokens := [];
        sp_disagree_idx := None |}.

(** [for i in range(K)]: the draft model is fed [next_token] alone and
    its greedy choice becomes the next [next_token]. *)
Fixpoint draft_loop (k : nat) (st : SpecState) : result SpecState :=
  match k with
  | O => Ok st
  | S k' =>
      let input_ids := [sp_next_token st] in
      let attention_mask := sp_attention_mask st ++ [1%Z] in
      let position_ids := [length attention_mask] in
      draft_request <-
        infer (sp_draft_request st) input_ids attention_mask position_ids ;;
      next_token <- last_logit (results draft_request) ;;
      draft_loop k'
        {| sp_attention_mask := attention_mask;
           sp_seq_len := sp_seq_len st;
           sp_draft_request := draft_request;
           sp_main_request := sp_main_request st;
           sp_first_token := sp_first_token st;
           sp_next_token := next_token;
           sp_all_tokens := sp_all_tokens st;
           sp_accum_draft_tokens := sp_accum_draft_tokens st ++ [next_token];
           sp_next_tokens := sp_next_tokens st;
           sp_disagree_idx := sp_disagree_idx st |}
  end.

(** [next_token = first_token] followed by the draft loop. *)
Definition draft_phase (K : nat) (st : SpecState) : result SpecState :=
  draft_loop K
    {| sp_attention_mask := sp_attention_mask st;
       sp_seq_len := sp_seq_len st;
       sp_draft_request := sp_draft_request st;
       sp_main_request := sp_main_request st;
       sp_first_token := sp_first_token st;
       sp_next_token := sp_first_token st;
       sp_all_tokens := sp_all_tokens st;
       sp_accum_draft_tokens := sp_accum_draft_tokens st;
       sp_next_tokens := sp_next_tokens st;
       sp_disagree_idx := sp_disagree_idx st |}.

(** The batched call of the main model:
    [np.concatenate((first_token, accum_draft_tokens[:-1]))],
    [np.ones((1, seq_len + K))], [np.arange(seq_len, seq_len + K)]. *)
Definition verify_phase (K : nat) (st : SpecState) : result SpecState :=
  let input_ids := sp_first_token st :: removelast (sp_accum_draft_tokens st) in
  let attention_mask := repeat 1%Z (sp_seq_len st + K) in
  let position_ids := seq (sp_seq_len st) K in
  main_request <-
    infer (sp_main_request st) input_ids attention_mask position_ids ;;
  Ok {| sp_attention_mask := attention_mask;
        sp_seq_len := sp_seq_len st;
        sp_draft_request := sp_draft_request st;
        sp_main_request := main_request;
        sp_first_token := sp_first_token st;
        sp_next_token := sp_next_token st;
        sp_all_tokens := sp_all_tokens st;
        sp_accum_draft_tokens := sp_accum_draft_tokens st;
        sp_next_tokens := results main_request;
        sp_disagree_idx := sp_disagree_idx st |}.

(** [for disagree_idx, (t1, t2) in enumerate(zip(draft, verify)):
       if t1 != t2: break]
    started at index [i] with [cur] the binding [disagree_idx] has so
    far; an empty [zip] leaves the binding as it was. *)
Fixpoint scan_disagree (i : nat) (draft verify : list token)
    (cur : option nat) : option nat :=
  match draft, verify with
  | t1 :: draft', t2 :: verify' =>
      if negb (Z.eqb t1 t2) then Some i
      else scan_disagree (S i) draft' verify' (Some i)
  | _, _ => cur
  end.

(** [first_token = next_tokens[disagree_idx]],
    [all_tokens.extend(next_tokens[: disagree_idx + 1])] and
    [seq_len += disagree_idx + 1], once both reads have succeeded. *)
Definition accept (st : SpecState) (d : nat) (first_token : token) : SpecState :=
  {| sp_attention_mask := sp_attention_mask st;
     sp_seq_len := sp_seq_len st + (d + 1);
     sp_draft_request := sp_draft_request st;
     sp_main_request := sp_main_request st;
     sp_first_token := first_token;
     sp_next_token := sp_next_token st;
     sp_all_tokens := sp_all_tokens st ++ firstn (d + 1) (sp_next_tokens st);
     sp_accum_draft_tokens := sp_accum_draft_tokens st;
     sp_next_tokens := sp_next_tokens st;
     sp_disagree_idx := Some d |}.

(** The statements from the comparison loop to [seq_len += ...]. *)
Definition accept_phase (st : SpecState) : result SpecState :=
  let disagree_idx :=
    scan_disagree 0 (sp_accum_draft_tokens st) (sp_next_tokens st)
                  (sp_disagree_idx st) in
  match disagree_idx with
  | None => Raise UnboundLocalError
  | Some d =>
      match nth_error (sp_next_tokens st) d with
      | None => Raise IndexError
      | Some first_token => Ok (accept st d first_token)
      end
  end.

(** The two [update_state] calls and the resets that end an iteration. *)
Definition trim_phase (st : SpecState) : SpecState :=
  {| sp_attention_mask := repeat 1%Z (sp_seq_len st);
     sp_seq_len := sp_seq_len st;
     sp_draft_request := update_state (sp_draft_request st) (sp_seq_len st);
     sp_main_request := update_state (sp_main_request st) (sp_seq_len st);
     sp_first_token := sp_first_token st;
     sp_next_token := sp_next_token st;
     sp_all_tokens := sp_all_tokens st;
     sp_accum_draft_tokens := [];
     sp_next_tokens := sp_next_tokens st;
     sp_disagree_idx := sp_disagree_idx st |}.

(** One pass through the body of [while seq_len < N]. *)
Definition sp_body (K : nat) (st : SpecState) : result SpecState :=
  st1 <- draft_phase K st ;;
  st2 <- verify_phase K st1 ;;
  st3 <- accept_phase st2 ;;
  Ok (trim_phase st3).

Fixpoint sp_while (fuel K N : nat) (st : SpecState) : result SpecState :=
  if sp_seq_len st <? N then
    match fuel with
    | O => OutOfFuel
    | S fuel' => st' <- sp_body K st ;; sp_while fuel' K N st'
    end
  else Ok st.

(** The routine up to [all_tokens.extend(accum_draft_tokens)]. *)
Definition sp_run (input : Tokenized) (draft_model main_model : Model)
    (K N : nat) : result SpecState :=
  st0 <- sp_prime input draft_model main_model ;;
  sp_while (N - sp_seq_len st0) K N st0.

Definition speculative_sampling_with_pkv (input : Tokenized)
    (draft_model main_model : Model) (K N : nat) : result (list token) :=
  st <- sp_run input draft_model main_model K N ;;
  Ok (sp_all_tokens st ++ sp_accum_draft_tokens st).

(** [n] passes through the loop body, whatever [seq_len] is. *)
Fixpoint sp_iterate (n K : nat) (st : SpecState) : result SpecState :=
  match n with
  | O => Ok st
  | S n' => st' <- sp_body K st ;; sp_iterate n' K st'
  end.

(** ** Predicates used in the statements *)

(** [d] is the index the comparison loop stops at on two sequences of
    equal length [K]: the pairs before [d] agree, and either the pair at
    [d] differs, or [d] is the last index and every pair agrees. *)
Definition first_disagreement (draft verify : list token) (d : nat) : Prop :=
  d < length draft
  /\ (forall i, i < d -> nth_error draft i = nth_error verify i)
  /\ (nth_error draft d <> nth_error verify d
      \/ (d = length draft - 1 /\ draft = verify)).

(** [t] is a greedy choice of model [m]. *)
Definition drafted_by (m : Model) (t : token) : Prop :=
  exists sts mask, t = predict m sts mask.

(** What the draft loop leaves alone, and what it extends. *)
Record draft_extends (k : nat) (st st' : SpecState) : Prop := {
  de_seq_len : sp_seq_len st' = sp_seq_len st;
  de_main : sp_main_request st' = sp_main_request st;
  de_first : sp_first_token st' = sp_first_token st;
  de_all : sp_all_tokens st' = sp_all_tokens st;
  de_idx : sp_disagree_idx st' = sp_disagree_idx st;
  de_model : req_model (sp_draft_request st') = req_model (sp_draft_request st);
  de_accum : exists new, length new = k
               /\ sp_accum_draft_tokens st' = sp_accum_draft_tokens st ++ new
               /\ Forall (drafted_by (req_model (sp_draft_request st))) new;
  de_mask : length (sp_attention_mask st') = length (sp_attention_mask st) + k;
  de_cache : forall n, all_length n (query_state (sp_draft_request st)) ->
               all_length (n + k) (query_state (sp_draft_request st'));
  de_calls : length (calls (sp_draft_request st'))
             = length (calls (sp_draft_request st)) + k
}.

(** The state a batched call that returns leaves behind. *)
Definition verified_state (K : nat) (st : SpecState) : SpecState :=
  let main_request :=
    forward (sp_main_request st)
            (sp_first_token st :: removelast (sp_accum_draft_tokens st))
            (repeat 1%Z (sp_seq_len st + K)) (seq (sp_seq_len st) K) in
  {| sp_attention_mask := repeat 1%Z (sp_seq_len st + K);
     sp_seq_len := sp_seq_len st;
     sp_draft_request := sp_draft_request st;
     sp_main_request := main_request;
     sp_first_token := sp_first_token st;
     sp_next_token := sp_next_token st;
     sp_all_tokens := sp_all_tokens st;
     sp_accum_draft_tokens := sp_accum_draft_tokens st;
     sp_next_tokens := results main_request;
     sp_disagree_idx := sp_disagree_idx st |}.

(** The main request after the batched call of an iteration that began
    in [st] and drafted [draft]. *)
Definition verified (K : nat) (st : SpecState) (draft : list token) : InferRequest :=
  forward (sp_main_request st)
        (sp_first_token st :: removelast draft)
        (repeat 1%Z (sp_seq_len st + K))
        (seq (sp_seq_len st) K).

(** An iteration started in [st] drafts [draft], stops comparing at
    [d], and ends in [st']. *)
Record iteration (K : nat) (st : SpecState) (draft : list token) (d : nat)
    (st' : SpecState) : Prop := {
  it_body : sp_body K st = Ok st';
  it_drafted : exists st1, draft_phase K st = Ok st1
                 /\ sp_accum_draft_tokens st1 = draft
                 /\ verify_phase K st1 = Ok (verified_state K st1)
                 /\ sp_main_request (verified_state K st1) = verified K st draft;
  it_draft_len : length draft = K;
  it_draft_pred : Forall (drafted_by (req_model (sp_draft_request st))) draft;
  it_verify_len : length (results (verified K st draft)) = K;
  it_disagree : first_disagreement draft (results (verified K st draft)) d;
  it_idx : sp_disagree_idx st' = Some d;
  it_seq_len : sp_seq_len st' = sp_seq_len st + (d + 1);
  it_all : sp_all_tokens st'
           = sp_all_tokens st ++ firstn (d + 1) (results (verified K st draft));
  it_first : nth_error (results (verified K st draft)) d = Some (sp_first_token st');
  it_main : sp_main_request st'
            = update_state (verified K st draft) (sp_seq_len st');
  it_accum : sp_accum_draft_tokens st' = [];
  it_mask : sp_attention_mask st' = repeat 1%Z (sp_seq_len st');
  it_draft_cache : forall n, all_length n (query_state (sp_draft_request st)) ->
                    all_length (Nat.min (n + K) (sp_seq_len st'))
                               (query_state (sp_draft_request st'));
  it_draft_calls : length (calls (sp_draft_request st'))
                   = length (calls (sp_draft_request st)) + K;
  it_draft_model : req_model (sp_draft_request st')
                   = req_model (sp_draft_request st)
}.

(** Every state of the request holds the tokens [ctx]. *)
Definition holds (r : InferRequest) (ctx : list token) : Prop :=
  map tokens_of (query_state r) = repeat ctx (n_states (req_model r)).

(** From index [p] on, every token of [all] is the model's choice on
    states that hold exactly the tokens before it. *)
Definition greedy_from (m : Model) (p : nat) (all : list token) : Prop :=
  forall j, p <= j < length all ->
    exists sts mask,
      map tokens_of sts = repeat (firstn j all) (n_states m)
      /\ nth_error all j = Some (predict m sts mask).

(** The model's choice is a function of the token ids its states hold:
    neither position ids nor the attention mask change it. *)
Definition token_determined (m : Model) : Prop :=
  forall sts sts' mask mask',
    map tokens_of sts = map tokens_of sts' ->
    predict m sts mask = predict m sts' mask'.

(** The model's choice after the tokens [ctx], fed at positions
    [0 .. length ctx - 1] under an all-ones mask. *)
Definition next_of (m : Model) (ctx : list token) : token :=
  predict m (repeat (fed_entries ctx (seq 0 (length ctx))) (n_states m))
          (repeat 1%Z (length ctx)).

(** Naive greedy decoding with a next-token function: [n] times, append
    to the sequence the token chosen after it. *)
Fixpoint greedy_decode (next : list token -> token) (ctx : list token)
    (n : nat) : list token :=
  match n with
  | O => ctx
  | S n' => greedy_decode next (ctx ++ [next ctx]) n'
  end.

(** The loop head of the autoregressive routine after [n] passes on
    [input] with [model]. *)
Record ar_inv (input : Tokenized) (model : Model) (n : nat) (st : ARState)
  : Prop := {
  ai_seq : ar_seq_len st = length (input_ids input) + n;
  ai_len : length (ar_all_tokens st) = ar_seq_len st + 1;
  ai_prompt : firstn (length (input_ids input)) (ar_all_tokens st)
              = input_ids input;
  ai_next : nth_error (ar_all_tokens st) (ar_seq_len st)
            = Some (ar_next_token st);
  ai_model : req_model (ar_request st) = model;
  ai_holds : holds (ar_request st)
                   (firstn (ar_seq_len st) (ar_all_tokens st));
  ai_greedy : greedy_from model (length (input_ids input)) (ar_all_tokens st);
  ai_calls : length (calls (ar_request st)) = 1 + n
}.

(** The loop head of the speculative routine after [n] passes on
    [input] with [main_model] and [K]. *)
Record sp_inv (input : Tokenized) (main_model : Model) (K n : nat)
    (st : SpecState) : Prop := {
  si_accum : sp_accum_draft_tokens st = [];
  si_ge : length (input_ids input) <= sp_seq_len st;
  si_len : length (sp_all_tokens st) = sp_seq_len st + 1;
  si_prompt : firstn (length (input_ids input)) (sp_all_tokens st)
              = input_ids input;
  si_first : nth_error (sp_all_tokens st) (sp_seq_len st)
             = Some (sp_first_token st);
  si_model : req_model (sp_main_request st) = main_model;
  si_holds : holds (sp_main_request st)
                   (firstn (sp_seq_len st) (sp_all_tokens st));
  si_greedy : greedy_from main_model (length (input_ids input))
                          (sp_all_tokens st);
  si_draft_cache : all_length (sp_seq_len st)
                              (query_state (sp_draft_request st));
  si_main_calls : length (calls (sp_main_request st)) = 1 + n;
  si_draft_calls : length (calls (sp_draft_request st)) = 1 + n * K
}.

(** ** Further definitions used in the statements *)

(** [n] passes through the body of the autoregressive loop, whatever
    [seq_len] is. *)
Fixpoint ar_iterate (n : nat) (st : ARState) : result ARState :=
  match n with
  | O => Ok st
  | S n' => st' <- ar_body st ;; ar_iterate n' st'
  end.

(** [l] is an initial segment of [l']. *)
Definition initial_segment (l l' : list token) : Prop :=
  l = firstn (length l) l'.

(** The calls of the autoregressive routine when it returns [all] after
    [n] passes: the prompt at positions [0 .. prompt_len - 1], then for
    [j < n] the token of index [prompt_len + j] alone, under the input
    mask extended by [j + 1] ones, at the position id that is the length
    of that mask. *)
Definition ar_trace (input : Tokenized) (all : list token) (n : nat) : list call :=
  {| c_input_ids := input_ids input;
     c_attention_mask := attention_mask input;
     c_position_ids := seq 0 (length (input_ids input)) |}
  :: map (fun j =>
            {| c_input_ids := [nth (length (input_ids input) + j) all 0%Z];
               c_attention_mask := attention_mask input ++ repeat 1%Z (j + 1);
               c_position_ids := [length (attention_mask input) + j + 1] |})
         (seq 0 n).

(** The calls of one draft loop that starts under [mask] with
    [first_token] and drafts [draft]: call [i] feeds [first_token] for
    [i = 0] and the draft token [i - 1] otherwise, under [mask] extended
    by [i + 1] ones, at the position id that is the length of that
    mask. *)
Definition draft_trace (mask : list Z) (first_token : token)
    (draft : list token) (k : nat) : list call :=
  map (fun i =>
         {| c_input_ids := [nth i (first_token :: draft) 0%Z];
            c_attention_mask := mask ++ repeat 1%Z (i + 1);
            c_position_ids := [length mask + i + 1] |})
      (seq 0 k).

(** The loop head of the speculative routine after [n] passes, for what
    the draft request holds and how far [seq_len] can have moved. *)
Record sp_draft_inv (input : Tokenized) (draft_model : Model) (K n : nat)
    (st : SpecState) : Prop := {
  sd_model : req_model (sp_draft_request st) = draft_model;
  sd_holds : holds (sp_draft_request st)
                   (firstn (sp_seq_len st) (sp_all_tokens st));
  sd_bound : sp_seq_len st <= length (input_ids input) + n * K
}.

(** The loop head of the autoregressive routine after [n] passes, for the
    calls issued and the mask kept. *)
Record ar_trace_inv (input : Tokenized) (n : nat) (st : ARState) : Prop := {
  at_len : length (ar_all_tokens st) = length (input_ids input) + n + 1;
  at_seq : ar_seq_len st = length (input_ids input) + n;
  at_next : nth_error (ar_all_tokens st) (length (input_ids input) + n)
            = Some (ar_next_token st);
  at_mask : ar_attention_mask st = attention_mask input ++ repeat 1%Z n;
  at_calls : calls (ar_request st) = ar_trace input (ar_all_tokens st) n
}.

(** ** Sample models, used to run the routines *)

(** Predicts the number of positions the first state holds. *)
Definition counting_model : Model :=
  {| n_states := 2;
     predict := fun sts _ => Z.of_nat (length (hd [] sts)) |}.

(** Predicts a fixed token. *)
Definition constant_model (t : token) : Model :=
  {| n_states := 2; predict := fun _ _ => t |}.

(** Predicts the position id of the last position it sees. *)
Definition position_model : Model :=
  {| n_states := 1;
     predict := fun sts _ => Z.of_nat (e_pos (last (hd [] sts) (Entry 0%Z 0))) |}.

Definition prompt1 : Tokenized :=
  {| input_ids := [5%Z]; attention_mask := [1%Z] |}.

(** The loop head the routine reaches from [prompt1] with a draft model
    that always proposes 9 and [counting_model] as main model. *)
Definition head_example : SpecState :=
  {| sp_attention_mask := [1%Z];
     sp_seq_len := 1;
     sp_draft_request :=
       forward (create_infer_request (constant_model 9%Z)) [5%Z] [1%Z] [0];
     sp_main_request :=
       forward (create_infer_request counting_model) [5%Z] [1%Z] [0];
     sp_first_token := 1%Z;
     sp_next_token := 1%Z;
     sp_all_tokens := [5%Z; 1%Z];
     sp_accum_draft_tokens := [];
     sp_next_tokens := [];
     sp_disagree_idx := None |}.

(** The state of the first pass with [K = 2] from [head_example], after
    the comparison and before the two [update_state] calls: the draft
    [9; 9] met the main model's [2; 3], so [disagree_idx = 0]. *)
Definition untrimmed_example : SpecState :=
  {| sp_attention_mask := [1%Z; 1%Z; 1%Z];
     sp_seq_len := 2;
     sp_draft_request :=
       forward (forward (sp_draft_request head_example) [1%Z] [1%Z; 1%Z] [2])
             [9%Z] [1%Z; 1%Z; 1%Z] [3];
     sp_main_request :=
       forward (sp_main_request head_example) [1%Z; 9%Z] [1%Z; 1%Z; 1%Z] [1; 2];
     sp_first_token := 2%Z;
     sp_next_token := 9%Z;
     sp_all_tokens := [5%Z; 1%Z; 2%Z];
     sp_accum_draft_tokens := [9%Z; 9%Z];
     sp_next_tokens := [2%Z; 3%Z];
     sp_disagree_idx := Some 0 |}.

(** * Properties *)

Example head_example_reached :
  sp_prime prompt1 (constant_model 9%Z) counting_model = Ok head_example.
Proof. reflexivity. Qed.

Example greedy_decode_counting :
  greedy_decode (next_of counting_model) [5%Z] 3 = [5%Z; 1%Z; 2%Z; 3%Z].
Proof. reflexivity. Qed.

Example untrimmed_example_reached :
  (st1 <- draft_phase 2 head_example ;;
   st2 <- verify_phase 2 st1 ;;
   accept_phase st2)
  = Ok untrimmed_example.
Proof. reflexivity. Qed.

(** ** The inference service *)

Lemma infer_ok r ids mask pos :
  length ids = length pos -> infer r ids mask pos = Ok (forward r ids mask pos).
Proof. intros H. unfold infer. now rewrite H, Nat.eqb_refl. Qed.

Lemma infer_mismatch r ids mask pos :
  length ids <> length pos -> infer r ids mask pos = Raise RuntimeError.
Proof.
  intros H. unfold infer.
  destruct (Nat.eqb_spec (length ids) (length pos)); [contradiction|reflexivity].
Qed.

Lemma infer_one_token r t mask pos :
  infer r [t] mask [pos] = Ok (forward r [t] mask [pos]).
Proof. reflexivity. Qed.

Lemma prompt_position_ids_ok (ids : list token) :
  ids <> [] -> prompt_position_ids (length ids) = Ok (seq 0 (length ids)).
Proof. destruct ids; [congruence|reflexivity]. Qed.

(** The priming of the autoregressive routine on a non-empty prompt, with
    the reshape and the call both done. *)
Lemma ar_prime_nonempty (input : Tokenized) (model : Model) :
  input_ids input <> [] ->
  ar_prime input model
  = (next_token <-
       last_logit (results (forward (create_infer_request model)
                              (input_ids input) (attention_mask input)
                              (seq 0 (length (input_ids input))))) ;;
     Ok {| ar_attention_mask := attention_mask input;
           ar_seq_len := length (input_ids input);
           ar_request :=
             forward (create_infer_request model) (input_ids input)
                     (attention_mask input)
                     (seq 0 (length (input_ids input)));
           ar_next_token := next_token;
           ar_all_tokens := input_ids input ++ [next_token] |}).
Proof.
  intros Hne. unfold ar_prime.
  rewrite (@prompt_position_ids_ok _ Hne). cbn [bind].
  rewrite infer_ok by now rewrite length_seq.
  reflexivity.
Qed.

Lemma sp_prime_nonempty (input : Tokenized) (draft_model main_model : Model) :
  input_ids input <> [] ->
  sp_prime input draft_model main_model
  = (first_token <-
       last_logit (results (forward (create_infer_request main_model)
                              (input_ids input) (attention_mask input)
                              (seq 0 (length (input_ids input))))) ;;
     Ok {| sp_attention_mask := attention_mask input;
           sp_seq_len := length (input_ids input);
           sp_draft_request :=
             forward (create_infer_request draft_model) (input_ids input)
                     (attention_mask input)
                     (seq 0 (length (input_ids input)));
           sp_main_request :=
             forward (create_infer_request main_model) (input_ids input)
                     (attention_mask input)
                     (seq 0 (length (input_ids input)));
           sp_first_token := first_token;
           sp_next_token := first_token;
           sp_all_tokens := input_ids input ++ [first_token];
           sp_accum_draft_tokens := [];
           sp_next_tokens := [];
           sp_disagree_idx := None |}).
Proof.
  intros Hne. unfold sp_prime.
  rewrite (@prompt_position_ids_ok _ Hne). cbn [bind].
  rewrite !infer_ok by now rewrite length_seq.
  reflexivity.
Qed.

Lemma ar_prime_empty (input : Tokenized) (model : Model) :
  input_ids input = [] -> ar_prime input model = Raise ValueError.
Proof. intros E. unfold ar_prime. now rewrite E. Qed.

Lemma sp_prime_empty (input : Tokenized) (draft_model main_model : Model) :
  input_ids input = [] ->
  sp_prime input draft_model main_model = Raise ValueError.
Proof. intros E. unfold sp_prime. now rewrite E. Qed.

Lemma sp_prime_returns_nonempty (input : Tokenized)
    (draft_model main_model : Model) (st0 : SpecState) :
  sp_prime input draft_model main_model = Ok st0 -> input_ids input <> [].
Proof.
  intros H E. rewrite (@sp_prime_empty input draft_model main_model E) in H. discriminate.
Qed.

Lemma ar_prime_returns_nonempty (input : Tokenized) (model : Model)
    (st0 : ARState) :
  ar_prime input model = Ok st0 -> input_ids input <> [].
Proof.
  intros H E. rewrite (@ar_prime_empty input model E) in H. discriminate.
Qed.

(** A batched call on as many input ids as position ids returns. *)
Lemma verify_phase_ok (K : nat) (st : SpecState) :
  length (sp_first_token st :: removelast (sp_accum_draft_tokens st)) = K ->
  verify_phase K st = Ok (verified_state K st).
Proof.
  intros H. unfold verify_phase.
  rewrite infer_ok by now rewrite length_seq.
  reflexivity.
Qed.

(** The batched call returns only as the state of [verified_state]. *)
Lemma verify_phase_returns (K : nat) (st st2 : SpecState) :
  verify_phase K st = Ok st2 -> st2 = verified_state K st.
Proof.
  unfold verify_phase, infer.
  destruct (_ =? _); cbn [bind]; [|discriminate].
  now intros [= <-].
Qed.

Lemma all_length_map (f : list entry -> list entry) (n m : nat) sts :
  (forall s, length s = n -> length (f s) = m) ->
  all_length n sts -> all_length m (map f sts).
Proof.
  intros Hf H. unfold all_length in *. rewrite Forall_map.
  eapply Forall_impl; [|exact H]. simpl. auto.
Qed.

Lemma all_length_repeat_nil (k : nat) : all_length 0 (repeat [] k).
Proof.
  unfold all_length. apply Forall_forall. intros s Hs.
  apply repeat_spec in Hs. now subst.
Qed.

Lemma fed_entries_length ids pos :
  length (fed_entries ids pos) = Nat.min (length ids) (length pos).
Proof. unfold fed_entries. now rewrite length_map, length_combine. Qed.

Lemma fed_entries_tokens ids pos :
  length ids <= length pos -> tokens_of (fed_entries ids pos) = ids.
Proof.
  unfold tokens_of, fed_entries. revert pos.
  induction ids as [|t ids IH]; intros [|p pos] H; simpl in *; try lia; auto.
  f_equal. apply IH. lia.
Qed.

Lemma forward_query_state r ids mask pos :
  query_state (forward r ids mask pos)
  = map (fun s => s ++ fed_entries ids pos) (query_state r).
Proof. reflexivity. Qed.

Lemma forward_results_length r ids mask pos :
  length (results (forward r ids mask pos)) = Nat.min (length ids) (length pos).
Proof.
  unfold forward; simpl. rewrite length_map, length_seq.
  apply fed_entries_length.
Qed.

Lemma forward_calls_length r ids mask pos :
  length (calls (forward r ids mask pos)) = length (calls r) + 1.
Proof. unfold forward; simpl. now rewrite length_app. Qed.

Lemma forward_all_length r ids mask pos n :
  all_length n (query_state r) ->
  all_length (n + Nat.min (length ids) (length pos))
             (query_state (forward r ids mask pos)).
Proof.
  intros H. rewrite forward_query_state.
  eapply all_length_map; [|exact H].
  intros s Hs. now rewrite length_app, fed_entries_length, Hs.
Qed.

(** The logits of input position [i] of a call. *)
Lemma forward_results_nth r ids mask pos i :
  i < Nat.min (length ids) (length pos) ->
  nth_error (results (forward r ids mask pos)) i
  = Some (predict (req_model r)
            (map (fun s => s ++ firstn (S i) (fed_entries ids pos)) (query_state r))
            mask).
Proof.
  intros Hi. unfold forward; simpl. fold (fed_entries ids pos).
  rewrite nth_error_map, nth_error_nth' with (d := 0).
  - now rewrite seq_nth by (rewrite fed_entries_length; exact Hi).
  - now rewrite length_seq, fed_entries_length.
Qed.

Lemma last_logit_last (l : list token) (t : token) :
  last_logit (l ++ [t]) = Ok t.
Proof.
  induction l as [|a l IH]; [reflexivity|].
  simpl. destruct (l ++ [t]) eqn:E; [destruct l; discriminate|exact IH].
Qed.

Lemma last_logit_nonempty (l : list token) :
  l <> [] -> exists t, last_logit l = Ok t /\ nth_error l (length l - 1) = Some t.
Proof.
  intros H. destruct (exists_last H) as [l' [t ->]].
  exists t. split; [apply last_logit_last|].
  rewrite length_app; simpl.
  rewrite nth_error_app2 by lia.
  replace (length l' + 1 - 1 - length l') with 0 by lia. reflexivity.
Qed.

(** ** [update_state] *)

Lemma trim_state_length seq_len s :
  length (trim_state seq_len s) = Nat.min (length s) seq_len.
Proof.
  unfold trim_state. destruct (length s <=? seq_len) eqn:E.
  - apply Nat.leb_le in E. lia.
  - apply Nat.leb_gt in E. rewrite length_firstn. lia.
Qed.

Lemma trim_state_firstn seq_len s : trim_state seq_len s = firstn seq_len s.
Proof.
  unfold trim_state. destruct (length s <=? seq_len) eqn:E; [|reflexivity].
  apply Nat.leb_le in E. now rewrite firstn_all2.
Qed.

Lemma trim_state_idem seq_len s :
  trim_state seq_len (trim_state seq_len s) = trim_state seq_len s.
Proof.
  unfold trim_state at 1.
  rewrite trim_state_length.
  destruct (Nat.min (length s) seq_len <=? seq_len) eqn:E; [reflexivity|].
  apply Nat.leb_gt in E. lia.
Qed.

(** C5.  Trimming is idempotent: a second [update_state] with the same
    target length returns the request the first one returned, so it
    changes no state; and on each state [update_state] cuts to the
    target length when the state is longer and leaves it as it is
    otherwise. *)
Theorem update_state_idempotent (request : InferRequest) (seq_len : nat) :
  update_state (update_state request seq_len) seq_len
  = update_state request seq_len
  /\ query_state (update_state request seq_len)
     = map (fun s => if seq_len <? length s then firstn seq_len s else s)
           (query_state request)
  /\ results (update_state request seq_len) = results request
  /\ calls (update_state request seq_len) = calls request.
Proof.
  split; [|split; [|split; reflexivity]].
  - unfold update_state; simpl. f_equal.
    rewrite map_map. apply map_ext. intros s. apply trim_state_idem.
  - unfold update_state; simpl. apply map_ext. intros s.
    unfold trim_state.
    destruct (length s <=? seq_len) eqn:E1, (seq_len <? length s) eqn:E2;
      try reflexivity.
    + apply Nat.leb_le in E1. apply Nat.ltb_lt in E2. lia.
    + apply Nat.leb_gt in E1. apply Nat.ltb_ge in E2. lia.
Qed.

Lemma update_state_all_length request seq_len n :
  all_length n (query_state request) -> seq_len <= n ->
  all_length seq_len (query_state (update_state request seq_len)).
Proof.
  intros H Hle. unfold update_state; simpl.
  eapply all_length_map; [|exact H].
  intros s Hs. rewrite trim_state_length. lia.
Qed.

Lemma update_state_firstn (request : InferRequest) (seq_len : nat) :
  query_state (update_state request seq_len)
  = map (firstn seq_len) (query_state request).
Proof.
  unfold update_state; simpl. apply map_ext. intros s.
  apply trim_state_firstn.
Qed.

(** C4.  When every state of both requests has length [seq_len_old + K]
    before the two [update_state] calls and the new [seq_len] is at most
    that, every state of both requests has length [seq_len] after them.
    No state is dropped or added: each request keeps as many states as it
    had, in their order, each cut to its first [seq_len] positions, and
    the request stays one of the same model. *)
Theorem trim_phase_cache_length (st : SpecState) (seq_len_old K : nat) :
  all_length (seq_len_old + K) (query_state (sp_draft_request st)) ->
  all_length (seq_len_old + K) (query_state (sp_main_request st)) ->
  sp_seq_len st <= seq_len_old + K ->
  sp_seq_len (trim_phase st) = sp_seq_len st
  /\ all_length (sp_seq_len st) (query_state (sp_draft_request (trim_phase st)))
  /\ all_length (sp_seq_len st) (query_state (sp_main_request (trim_phase st)))
  /\ query_state (sp_draft_request (trim_phase st))
     = map (firstn (sp_seq_len st)) (query_state (sp_draft_request st))
  /\ query_state (sp_main_request (trim_phase st))
     = map (firstn (sp_seq_len st)) (query_state (sp_main_request st))
  /\ length (query_state (sp_draft_request (trim_phase st)))
     = length (query_state (sp_draft_request st))
  /\ length (query_state (sp_main_request (trim_phase st)))
     = length (query_state (sp_main_request st))
  /\ (forall i s, nth_error (query_state (sp_draft_request st)) i = Some s ->
        exists s', nth_error (query_state (sp_draft_request (trim_phase st))) i
                   = Some s'
                   /\ s' = firstn (sp_seq_len st) s
                   /\ length s' = sp_seq_len st)
  /\ (forall i s, nth_error (query_state (sp_main_request st)) i = Some s ->
        exists s', nth_error (query_state (sp_main_request (trim_phase st))) i
                   = Some s'
                   /\ s' = firstn (sp_seq_len st) s
                   /\ length s' = sp_seq_len st)
  /\ req_model (sp_draft_request (trim_phase st))
     = req_model (sp_draft_request st)
  /\ req_model (sp_main_request (trim_phase st))
     = req_model (sp_main_request st).
Proof.
  intros Hd Hm Hle. split; [reflexivity|].
  cbn [trim_phase sp_draft_request sp_main_request sp_seq_len].
  split; [eapply update_state_all_length; eauto|].
  split; [eapply update_state_all_length; eauto|].
  split; [apply update_state_firstn|].
  split; [apply update_state_firstn|].
  split; [rewrite update_state_firstn; apply length_map|].
  split; [rewrite update_state_firstn; apply length_map|].
  assert (Hnth : forall request,
            all_length (seq_len_old + K) (query_state request) ->
            forall i s, nth_error (query_state request) i = Some s ->
            exists s',
              nth_error (query_state (update_state request (sp_seq_len st))) i
              = Some s'
              /\ s' = firstn (sp_seq_len st) s
              /\ length s' = sp_seq_len st).
  { intros request Hall i s Hi.
    exists (firstn (sp_seq_len st) s).
    split; [rewrite update_state_firstn, nth_error_map, Hi; reflexivity|].
    split; [reflexivity|].
    unfold all_length in Hall. rewrite Forall_forall in Hall.
    pose proof (Hall s (nth_error_In _ _ Hi)) as Hs.
    rewrite length_firstn. clear Hall. lia. }
  split; [exact (Hnth _ Hd)|]. split; [exact (Hnth _ Hm)|].
  split; reflexivity.
Qed.

(** ** The comparison loop *)

Lemma scan_disagree_spec (draft verify : list token) :
  forall (i : nat) (cur : option nat),
  draft <> [] -> length draft = length verify ->
  exists d, scan_disagree i draft verify cur = Some (i + d)
            /\ first_disagreement draft verify d.
Proof.
  revert verify.
  induction draft as [|t1 draft IH]; intros [|t2 verify] i cur Hne Hlen;
    try congruence; try discriminate.
  simpl. destruct (Z.eqb t1 t2) eqn:E; simpl.
  - apply Z.eqb_eq in E. subst t2.
    destruct draft as [|t1' draft'].
    + destruct verify; [|discriminate]. simpl.
      exists 0. split; [f_equal; lia|].
      repeat split; simpl; auto; intros; lia.
    + destruct (IH verify (S i) (Some i)) as [d [Hs [Hlt [Hbefore Hat]]]];
        [discriminate|simpl in *; lia|].
      exists (S d). split; [rewrite Hs; f_equal; lia|].
      repeat split.
      * simpl in *. lia.
      * intros [|j] Hj; simpl; [reflexivity|apply Hbefore; lia].
      * destruct Hat as [Hat|[Hd Heq]]; [left; exact Hat|right].
        split; [simpl in *; lia|now rewrite Heq].
  - apply Z.eqb_neq in E.
    exists 0. split; [f_equal; lia|].
    repeat split; simpl; [lia|intros; lia|left; congruence].
Qed.

Lemma scan_disagree_nil (i : nat) (verify : list token) (cur : option nat) :
  scan_disagree i [] verify cur = cur.
Proof. reflexivity. Qed.

(** Two indices that both satisfy [first_disagreement] are equal: the
    index is the smallest disagreeing one, or the last one. *)
Lemma first_disagreement_unique draft verify d d' :
  length draft = length verify ->
  first_disagreement draft verify d -> first_disagreement draft verify d' ->
  d = d'.
Proof.
  intros Hlen [Hlt [Hb Ha]] [Hlt' [Hb' Ha']].
  destruct (Nat.lt_trichotomy d d') as [H|[H|H]]; [|exact H|].
  - destruct Ha as [Ha|[Hd Heq]]; [elim Ha; now apply Hb'|lia].
  - destruct Ha' as [Ha'|[Hd Heq]]; [elim Ha'; now apply Hb|lia].
Qed.

(** ** The draft loop *)

Lemma draft_loop_total (k : nat) :
  forall st, exists st', draft_loop k st = Ok st' /\ draft_extends k st st'.
Proof.
  induction k as [|k IH]; intros st.
  - exists st. split; [reflexivity|].
    constructor; auto; try lia.
    + exists []. now rewrite app_nil_r.
    + intros n H. now rewrite Nat.add_0_r.
  - cbn [draft_loop]. rewrite infer_one_token.
    cbn [bind forward results fed_entries map seq length combine firstn
         fst snd last_logit].
    match goal with |- context [draft_loop k ?s] => destruct (IH s) as [st' [Hrun Hext]] end.
    exists st'. split; [exact Hrun|].
    destruct Hext as [H1 H2 H3 H4 H5 H6 [new [Hn [Hacc Hnew]]] H8 H9 H10].
    cbn [sp_seq_len sp_main_request sp_first_token sp_all_tokens sp_disagree_idx
         sp_draft_request sp_accum_draft_tokens sp_attention_mask req_model
         query_state calls] in *.
    constructor; auto.
    + eexists (_ :: new). split; [simpl; now rewrite Hn|]. split.
      * rewrite Hacc, <- app_assoc. reflexivity.
      * constructor; [|exact Hnew]. eexists _, _. reflexivity.
    + rewrite H8, length_app. simpl. lia.
    + intros n Hlen. replace (n + S k) with (n + 1 + k) by lia.
      apply H9. exact (forward_all_length _ [_] _ [_] Hlen).
    + rewrite H10, forward_calls_length. lia.
Qed.

Lemma draft_phase_total (K : nat) (st : SpecState) :
  exists st', draft_phase K st = Ok st' /\ draft_extends K st st'.
Proof.
  unfold draft_phase.
  match goal with |- context [draft_loop K ?s] =>
    destruct (draft_loop_total K s) as [st' [Hrun Hext]] end.
  exists st'. split; [exact Hrun|].
  destruct Hext; constructor; auto.
Qed.

(** ** One iteration of the speculative loop *)

Lemma removelast_length (A : Type) (l : list A) :
  length (removelast l) = length l - 1.
Proof.
  induction l as [|a l IH] using rev_ind; [reflexivity|].
  clear IH. rewrite removelast_last, length_app. simpl. lia.
Qed.

Lemma verified_results_length K st draft :
  length draft = K -> 1 <= K -> length (results (verified K st draft)) = K.
Proof.
  intros Hd HK. unfold verified. rewrite forward_results_length.
  cbn [length]. rewrite removelast_length, length_seq. lia.
Qed.

Lemma sp_body_total (K : nat) (st : SpecState) :
  1 <= K -> sp_accum_draft_tokens st = [] ->
  exists draft d st', iteration K st draft d st'.
Proof.
  intros HK Hacc.
  destruct (draft_phase_total K st) as [st1 [Hrun Hext]].
  destruct Hext as [H1 H2 H3 H4 H5 H6 [draft [Hn [Hdraft Hpred]]] H8 H9 H10].
  rewrite Hacc in Hdraft; simpl in Hdraft.
  assert (Hmain : sp_main_request (verified_state K st1) = verified K st draft).
  { unfold verified_state, verified; simpl. now rewrite H1, H2, H3, Hdraft. }
  assert (Hnext : sp_next_tokens (verified_state K st1) = results (verified K st draft)).
  { rewrite <- Hmain. reflexivity. }
  assert (Hver : verify_phase K st1 = Ok (verified_state K st1)).
  { apply verify_phase_ok. cbn [length].
    rewrite Hdraft, removelast_length. lia. }
  pose proof (@verified_results_length K st draft Hn HK) as Hvl.
  destruct (@scan_disagree_spec draft (results (verified K st draft)) 0
              (sp_disagree_idx st1)) as [d [Hscan Hd]].
  { intros ->. simpl in Hn. lia. }
  { now rewrite Hvl. }
  change (0 + d) with d in Hscan.
  assert (Hlt : d < K) by (destruct Hd as [Hd _]; lia).
  destruct (nth_error (results (verified K st draft)) d) as [t|] eqn:Ht.
  2:{ apply nth_error_None in Ht. lia. }
  assert (Hacc' : accept_phase (verified_state K st1)
                  = Ok (accept (verified_state K st1) d t)).
  { unfold accept_phase. rewrite Hnext.
    change (sp_accum_draft_tokens (verified_state K st1))
      with (sp_accum_draft_tokens st1).
    change (sp_disagree_idx (verified_state K st1)) with (sp_disagree_idx st1).
    rewrite Hdraft, Hscan, Ht. reflexivity. }
  exists draft, d, (trim_phase (accept (verified_state K st1) d t)).
  assert (Hseq : sp_seq_len (verified_state K st1) = sp_seq_len st) by exact H1.
  assert (Hall : sp_all_tokens (verified_state K st1) = sp_all_tokens st) by exact H4.
  constructor; auto;
    cbn [trim_phase accept sp_seq_len sp_all_tokens sp_first_token
         sp_main_request sp_draft_request sp_disagree_idx
         sp_accum_draft_tokens sp_attention_mask].
  - unfold sp_body. rewrite Hrun. cbn [bind]. rewrite Hver. cbn [bind].
    rewrite Hacc'. reflexivity.
  - exists st1. auto.
  - now rewrite Hseq.
  - now rewrite Hall, Hnext.
  - now rewrite Hmain.
  - intros n Hlen.
    change (sp_draft_request (verified_state K st1)) with (sp_draft_request st1).
    unfold update_state; cbn [query_state].
    eapply all_length_map; [|exact (H9 n Hlen)].
    intros s Hs. now rewrite trim_state_length, Hs.
Qed.

(** C2.  In an iteration begun with no pending draft tokens, the draft
    model produces [K] tokens and the main model, called once on the last
    accepted token followed by all draft tokens but the last, produces
    [K] predictions, each its own greedy choice at that input position;
    [disagree_idx] is below [K], every pair before it agrees, and either
    the pair at it differs or it is [K-1] and all pairs agree; the tokens
    appended to [all_tokens] are the main model's predictions up to and
    including [disagree_idx]. *)
Theorem acceptance_rule (K : nat) (st : SpecState) :
  1 <= K -> sp_accum_draft_tokens st = [] ->
  exists st1 st2 st' d,
    draft_phase K st = Ok st1 /\ verify_phase K st1 = Ok st2
    /\ sp_body K st = Ok st'
    /\ length (sp_accum_draft_tokens st1) = K
    /\ Forall (drafted_by (req_model (sp_draft_request st)))
              (sp_accum_draft_tokens st1)
    /\ infer (sp_main_request st)
             (sp_first_token st :: removelast (sp_accum_draft_tokens st1))
             (repeat 1%Z (sp_seq_len st + K)) (seq (sp_seq_len st) K)
       = Ok (sp_main_request st2)
    /\ sp_next_tokens st2 = results (sp_main_request st2)
    /\ length (results (sp_main_request st2)) = K
    /\ (forall i, i < K ->
          nth_error (results (sp_main_request st2)) i
          = Some (predict (req_model (sp_main_request st))
                    (map (fun s =>
                            s ++ firstn (S i)
                                   (fed_entries
                                      (sp_first_token st
                                       :: removelast (sp_accum_draft_tokens st1))
                                      (seq (sp_seq_len st) K)))
                         (query_state (sp_main_request st)))
                    (repeat 1%Z (sp_seq_len st + K))))
    /\ sp_disagree_idx st' = Some d
    /\ d < K
    /\ (forall i, i < d ->
          nth_error (sp_accum_draft_tokens st1) i
          = nth_error (results (sp_main_request st2)) i)
    /\ (nth_error (sp_accum_draft_tokens st1) d
         <> nth_error (results (sp_main_request st2)) d
        \/ (d = K - 1
            /\ sp_accum_draft_tokens st1 = results (sp_main_request st2)))
    /\ sp_all_tokens st'
       = sp_all_tokens st ++ firstn (d + 1) (results (sp_main_request st2)).
Proof.
  intros HK Hacc.
  destruct (@sp_body_total K st HK Hacc) as [draft [d [st' It]]].
  destruct (it_drafted It) as [st1 [Hrun [Hdraft [Hver Hmain]]]].
  exists st1, (verified_state K st1), st', d. rewrite Hdraft, Hmain.
  destruct (it_disagree It) as [Hlt [Hbefore Hat]].
  rewrite (it_draft_len It) in Hlt, Hat.
  assert (Hids : length (sp_first_token st :: removelast draft) = K).
  { cbn [length]. rewrite removelast_length, (it_draft_len It). lia. }
  split; [exact Hrun|]. split; [exact Hver|]. split; [apply It|].
  split; [apply It|]. split; [apply It|].
  split; [apply infer_ok; now rewrite length_seq|].
  split; [rewrite <- Hmain; reflexivity|].
  split; [apply It|].
  split.
  { intros i Hi. unfold verified. apply forward_results_nth.
    rewrite Hids, length_seq. lia. }
  split; [apply It|]. split; [exact Hlt|]. split; [exact Hbefore|].
  split; [exact Hat|apply It].
Qed.

(** C6, as the code has it.  The batched call of an iteration is the one
    call the iteration adds to the main request; its input ids are the
    last accepted token followed by all draft tokens but the last ([K]
    ids), its attention mask is [seq_len + K] ones, and its position ids
    are [seq_len .. seq_len + K - 1]. *)
Theorem verifier_call_inputs (K : nat) (st : SpecState) :
  1 <= K -> sp_accum_draft_tokens st = [] ->
  exists st1 st',
    draft_phase K st = Ok st1 /\ sp_body K st = Ok st'
    /\ length (sp_accum_draft_tokens st1) = K
    /\ calls (sp_main_request st')
       = calls (sp_main_request st)
         ++ [ {| c_input_ids :=
                   sp_first_token st :: removelast (sp_accum_draft_tokens st1);
                 c_attention_mask := repeat 1%Z (sp_seq_len st + K);
                 c_position_ids := seq (sp_seq_len st) K |} ]
    /\ length (sp_first_token st :: removelast (sp_accum_draft_tokens st1)) = K.
Proof.
  intros HK Hacc.
  destruct (sp_body_total st HK Hacc) as [draft [d [st' It]]].
  destruct (it_drafted It) as [st1 [Hrun [Hdraft Hmain]]].
  exists st1, st'. rewrite Hdraft, (it_main It).
  split; [exact Hrun|]. split; [apply It|]. split; [apply It|].
  split; [reflexivity|].
  cbn [length]. rewrite removelast_length, (it_draft_len It). lia.
Qed.

(** ** The [while] loops *)

Section SpWhile.
Variables K N : nat.
(** An invariant of the loop head, indexed by the number of passes. *)
Variable Inv : nat -> SpecState -> Prop.
Hypothesis step : forall n st,
  Inv n st -> sp_seq_len st < N ->
  exists st', sp_body K st = Ok st'
              /\ sp_seq_len st < sp_seq_len st' /\ Inv (S n) st'.

Lemma sp_while_rule (fuel : nat) :
  forall n0 st, Inv n0 st -> N - sp_seq_len st <= fuel ->
  exists n st',
    sp_while fuel K N st = Ok st' /\ sp_iterate n K st = Ok st'
    /\ Inv (n0 + n) st' /\ N <= sp_seq_len st'
    /\ n <= N - sp_seq_len st
    /\ (forall m, m < n ->
          exists st_m, sp_iterate m K st = Ok st_m /\ sp_seq_len st_m < N).
Proof.
  induction fuel as [|fuel IH]; intros n0 st HI Hfuel.
  - exists 0, st. simpl.
    destruct (sp_seq_len st <? N) eqn:E.
    + apply Nat.ltb_lt in E. lia.
    + apply Nat.ltb_ge in E. rewrite Nat.add_0_r.
      repeat split; auto; try lia; intros m Hm; lia.
  - cbn [sp_while]. destruct (sp_seq_len st <? N) eqn:E.
    + apply Nat.ltb_lt in E.
      destruct (step HI E) as [st1 [Hbody [Hlt HI1]]].
      destruct (IH (S n0) st1 HI1) as [n [st' [Hw [Hit [HI' [HN [Hn Hmid]]]]]]];
        [lia|].
      exists (S n), st'. rewrite Hbody. cbn [bind sp_iterate]. rewrite Hbody.
      cbn [bind]. replace (n0 + S n) with (S n0 + n) by lia.
      repeat split; auto; try lia.
      intros [|m] Hm.
      * exists st. split; [reflexivity|exact E].
      * destruct (Hmid m) as [st_m [Hm1 Hm2]]; [lia|].
        exists st_m. cbn [sp_iterate]. rewrite Hbody. auto.
    + apply Nat.ltb_ge in E. exists 0, st. rewrite Nat.add_0_r.
      repeat split; auto; try lia; intros m Hm; lia.
Qed.
End SpWhile.

Lemma sp_prime_shape (input : Tokenized) (draft_model main_model : Model)
    (st0 : SpecState) :
  sp_prime input draft_model main_model = Ok st0 ->
  sp_seq_len st0 = length (input_ids input)
  /\ sp_accum_draft_tokens st0 = []
  /\ sp_all_tokens st0 = input_ids input ++ [sp_first_token st0]
  /\ sp_disagree_idx st0 = None.
Proof.
  intros H. pose proof (sp_prime_returns_nonempty _ _ _ H) as Hne.
  rewrite (@sp_prime_nonempty input draft_model main_model Hne) in H.
  destruct (last_logit _) as [t| |]; cbn [bind] in H; try discriminate.
  injection H as <-. simpl. auto.
Qed.

Lemma sp_run_unfold (input : Tokenized) (draft_model main_model : Model)
    (K N : nat) (st0 : SpecState) :
  sp_prime input draft_model main_model = Ok st0 ->
  sp_run input draft_model main_model K N
  = sp_while (N - length (input_ids input)) K N st0.
Proof.
  intros Hprime. destruct (sp_prime_shape _ _ _ Hprime) as [Hlen _].
  unfold sp_run. rewrite Hprime. cbn [bind]. now rewrite Hlen.
Qed.

(** C3.  With [K >= 1], a pass begun with no pending draft tokens adds
    [disagree_idx + 1] to [seq_len], a number between 1 and [K], and
    ends with no pending draft tokens; hence the loop started there ends
    after at most [N - seq_len] passes, each of them starting below [N]
    ([seq_len] is the prompt length when the loop is first entered). *)
Theorem progress_and_termination (K N : nat) (st : SpecState) :
  1 <= K -> sp_accum_draft_tokens st = [] ->
  (exists d st',
     sp_body K st = Ok st'
     /\ sp_disagree_idx st' = Some d
     /\ sp_seq_len st' = sp_seq_len st + (d + 1)
     /\ 1 <= d + 1 <= K
     /\ sp_accum_draft_tokens st' = [])
  /\ (exists n st',
        sp_while (N - sp_seq_len st) K N st = Ok st'
        /\ sp_iterate n K st = Ok st'
        /\ n <= N - sp_seq_len st
        /\ N <= sp_seq_len st'
        /\ (forall m, m < n ->
              exists st_m, sp_iterate m K st = Ok st_m /\ sp_seq_len st_m < N)).
Proof.
  intros HK Hacc. split.
  - destruct (@sp_body_total K st HK Hacc) as [draft [d [st' It]]].
    exists d, st'. destruct (it_disagree It) as [Hlt _].
    rewrite (it_draft_len It) in Hlt.
    split; [apply It|]. split; [apply It|]. split; [apply It|].
    split; [lia|apply It].
  - destruct (@sp_while_rule K N (fun _ s => sp_accum_draft_tokens s = []))
      with (fuel := N - sp_seq_len st) (n0 := 0) (st := st)
      as [n [st' [Hw [Hit [_ [HN [Hn Hmid]]]]]]]; auto.
    { intros _ s Hs _.
      destruct (@sp_body_total K s HK Hs) as [draft [d [s' It]]].
      exists s'. split; [apply It|]. split; [|apply It].
      rewrite (it_seq_len It). lia. }
    exists n, st'. auto.
Qed.

(** ** What the states hold *)

Lemma firstn_agree (d : nat) :
  forall a b : list token,
  (forall i, i < d -> nth_error a i = nth_error b i) ->
  firstn d a = firstn d b.
Proof.
  induction d as [|d IH]; intros a b H; [reflexivity|].
  pose proof (H 0 (Nat.lt_0_succ d)) as H0.
  destruct a as [|x a], b as [|y b]; simpl in H0; try discriminate; auto.
  injection H0 as ->. simpl. f_equal. apply IH.
  intros i Hi. apply (H (S i)). lia.
Qed.

Lemma tokens_of_app (s1 s2 : list entry) :
  tokens_of (s1 ++ s2) = tokens_of s1 ++ tokens_of s2.
Proof. apply map_app. Qed.

Lemma tokens_of_firstn (n : nat) (s : list entry) :
  tokens_of (firstn n s) = firstn n (tokens_of s).
Proof. unfold tokens_of. now rewrite firstn_map. Qed.

Lemma map_repeat_ctx (f : list token -> list token) (sts : list (list entry))
    (g : list entry -> list entry) (ctx : list token) (k : nat) :
  (forall s, tokens_of (g s) = f (tokens_of s)) ->
  map tokens_of sts = repeat ctx k ->
  map tokens_of (map g sts) = repeat (f ctx) k.
Proof.
  intros Hg H. rewrite map_map.
  rewrite (map_ext _ (fun s => f (tokens_of s)) Hg).
  rewrite <- (map_map tokens_of f), H. apply map_repeat.
Qed.

Lemma holds_length r ctx :
  holds r ctx -> all_length (length ctx) (query_state r).
Proof.
  unfold holds, all_length. intros H. apply Forall_forall. intros s Hs.
  apply (in_map tokens_of) in Hs. rewrite H in Hs.
  apply repeat_spec in Hs. unfold tokens_of in Hs.
  now rewrite <- Hs, length_map.
Qed.

Lemma create_infer_request_holds (m : Model) : holds (create_infer_request m) [].
Proof. unfold holds; simpl. apply map_repeat. Qed.

Lemma forward_holds r ids mask pos ctx :
  holds r ctx -> length ids <= length pos ->
  holds (forward r ids mask pos) (ctx ++ ids).
Proof.
  unfold holds. intros H Hlen. rewrite forward_query_state.
  change (req_model (forward r ids mask pos)) with (req_model r).
  apply (map_repeat_ctx (fun c => c ++ ids)); [|exact H].
  intros s. now rewrite tokens_of_app, fed_entries_tokens.
Qed.

Lemma forward_results_holds r ids mask pos ctx i :
  holds r ctx -> length ids <= length pos -> i < length ids ->
  exists sts,
    nth_error (results (forward r ids mask pos)) i
    = Some (predict (req_model r) sts mask)
    /\ map tokens_of sts = repeat (ctx ++ firstn (S i) ids) (n_states (req_model r)).
Proof.
  unfold holds. intros H Hlen Hi. eexists. split.
  - apply forward_results_nth. lia.
  - apply (map_repeat_ctx (fun c => c ++ firstn (S i) ids)); [|exact H].
    intros s. now rewrite tokens_of_app, tokens_of_firstn, fed_entries_tokens.
Qed.

Lemma update_state_holds r seq_len ctx :
  holds r ctx -> holds (update_state r seq_len) (firstn seq_len ctx).
Proof.
  unfold holds. intros H. unfold update_state; cbn [query_state req_model].
  apply (map_repeat_ctx (firstn seq_len)); [|exact H].
  intros s. now rewrite trim_state_firstn, tokens_of_firstn.
Qed.

(** ** Greedy continuations *)

Lemma greedy_from_app (m : Model) (p : nat) (all new : list token) :
  greedy_from m p all ->
  (forall i, i < length new ->
     exists sts mask,
       map tokens_of sts = repeat (all ++ firstn i new) (n_states m)
       /\ nth_error new i = Some (predict m sts mask)) ->
  greedy_from m p (all ++ new).
Proof.
  intros Hg Hnew j [Hp Hj]. rewrite length_app in Hj.
  destruct (Nat.lt_ge_cases j (length all)) as [Hlt|Hge].
  - destruct (Hg j (conj Hp Hlt)) as [sts [mask [Hc Hn]]].
    exists sts, mask. rewrite firstn_app, nth_error_app1 by exact Hlt.
    replace (j - length all) with 0 by lia. simpl. rewrite app_nil_r. auto.
  - destruct (Hnew (j - length all)) as [sts [mask [Hc Hn]]]; [lia|].
    exists sts, mask. rewrite firstn_app, nth_error_app2 by exact Hge.
    rewrite firstn_all2 by exact Hge. auto.
Qed.

(** Two greedy continuations of the same prompt by a token-determined
    model agree as far as the shorter one goes. *)
Lemma greedy_from_prefix (m : Model) (p : nat) (a b : list token) :
  token_determined m ->
  greedy_from m p a -> greedy_from m p b ->
  firstn p a = firstn p b -> p <= length a <= length b ->
  a = firstn (length a) b.
Proof.
  intros Hm Ha Hb Hp Hlen.
  assert (H : forall j, j <= length a -> firstn j a = firstn j b).
  { induction j as [|j IH]; intros Hj; [reflexivity|].
    destruct (Nat.lt_ge_cases j p) as [Hlt|Hge].
    - assert (Hcut : forall l : list token,
                 firstn (S j) l = firstn (S j) (firstn p l)).
      { intros l. rewrite firstn_firstn. f_equal. lia. }
      now rewrite (Hcut a), (Hcut b), Hp.
    - destruct (Ha j) as [sa [ma [Hca Hna]]]; [lia|].
      destruct (Hb j) as [sb [mb [Hcb Hnb]]]; [lia|].
      rewrite (IH ltac:(lia)) in Hca.
      rewrite (Hm sa sb ma mb) in Hna by congruence.
      assert (Hsplit : forall (l : list token) t,
                 nth_error l j = Some t -> firstn (S j) l = firstn j l ++ [t]).
      { clear. intros l t H.
        revert l H. induction j as [|j IHj]; intros [|x l] H; simpl in *;
          try discriminate.
        - now injection H as ->.
        - f_equal. now apply IHj. }
      rewrite (Hsplit a _ Hna), (Hsplit b _ Hnb). f_equal. apply IH. lia. }
  rewrite <- H by lia. now rewrite firstn_all.
Qed.

(** A greedy continuation by a token-determined model is the naive
    greedy decoding of its first [p] tokens. *)
Lemma greedy_from_decode (m : Model) :
  token_determined m ->
  forall k p all,
    length all = p + k -> greedy_from m p all ->
    all = greedy_decode (next_of m) (firstn p all) k.
Proof.
  intros Hm. induction k as [|k IH]; intros p all Hlen Hg.
  - simpl. rewrite firstn_all2; [reflexivity|lia].
  - cbn [greedy_decode].
    destruct (Hg p) as [sts [mask [Hsts Hnth]]]; [lia|].
    assert (Hnext : predict m sts mask = next_of m (firstn p all)).
    { apply Hm. rewrite Hsts, map_repeat. f_equal.
      symmetry. apply fed_entries_tokens. now rewrite length_seq. }
    rewrite Hnext in Hnth.
    assert (Hcut : firstn (S p) all
                   = firstn p all ++ [next_of m (firstn p all)]).
    { clear - Hnth. revert Hnth.
      generalize (next_of m (firstn p all)) as t. revert all.
      induction p as [|p IHp]; intros [|x all] t H; simpl in *;
        try discriminate.
      - now injection H as ->.
      - f_equal. now apply IHp. }
    rewrite <- Hcut. apply IH; [lia|].
    intros j Hj. apply Hg. lia.
Qed.

Lemma split_last (l : list token) (n : nat) (x : token) :
  length l = n + 1 -> nth_error l n = Some x -> l = firstn n l ++ [x].
Proof.
  revert l. induction n as [|n IH]; intros [|y l] Hlen Hn; simpl in *;
    try discriminate.
  - injection Hn as ->. destruct l; [reflexivity|discriminate].
  - f_equal. apply IH; [lia|exact Hn].
Qed.

(** A call on a single token: its logits are read successfully, and the
    choice is made on states holding the context followed by the token. *)
Lemma forward_single r t mask pos ctx :
  holds r ctx ->
  exists t' sts,
    last_logit (results (forward r [t] mask [pos])) = Ok t'
    /\ t' = predict (req_model r) sts mask
    /\ map tokens_of sts = repeat (ctx ++ [t]) (n_states (req_model r)).
Proof.
  intros H. eexists _, _. split; [reflexivity|]. split; [reflexivity|].
  apply (map_repeat_ctx (fun c => c ++ [t])); [|exact H].
  intros s. now rewrite tokens_of_app.
Qed.

(** The first call of a request, on a non-empty prompt. *)
Lemma forward_prompt (m : Model) (input : Tokenized) :
  input_ids input <> [] ->
  exists t sts,
    last_logit (results (forward (create_infer_request m) (input_ids input)
                           (attention_mask input)
                           (seq 0 (length (input_ids input))))) = Ok t
    /\ t = predict m sts (attention_mask input)
    /\ map tokens_of sts = repeat (input_ids input) (n_states m).
Proof.
  intros Hne.
  set (r := forward _ _ _ _).
  assert (Hlen : length (results r) = length (input_ids input)).
  { unfold r. rewrite forward_results_length, length_seq. lia. }
  assert (Hpos : 0 < length (input_ids input)).
  { destruct (input_ids input); [congruence|simpl; lia]. }
  destruct (@last_logit_nonempty (results r)) as [t [Hlast Hnth]].
  { intros E. rewrite E in Hlen. simpl in Hlen. lia. }
  destruct (@forward_results_holds (create_infer_request m) (input_ids input)
              (attention_mask input) (seq 0 (length (input_ids input))) []
              (length (input_ids input) - 1))
    as [sts [Hres Hsts]].
  { apply create_infer_request_holds. }
  { rewrite length_seq. lia. }
  { lia. }
  fold r in Hres. rewrite Hlen, Hres in Hnth. injection Hnth as <-.
  exists (predict m sts (attention_mask input)), sts.
  split; [exact Hlast|]. split; [reflexivity|].
  rewrite Hsts. cbn [create_infer_request req_model app]. f_equal.
  apply firstn_all2. lia.
Qed.

(** ** The autoregressive routine *)

Section Autoregressive.
Variable input : Tokenized.
Variable model : Model.

Lemma ar_prime_inv :
  input_ids input <> [] ->
  exists st0, ar_prime input model = Ok st0 /\ ar_inv input model 0 st0.
Proof.
  intros Hne. rewrite (@ar_prime_nonempty input model Hne).
  destruct (@forward_prompt model input Hne) as [t [sts [Hlast [Ht Hsts]]]].
  rewrite Hlast. cbn [bind]. eexists. split; [reflexivity|].
  constructor; cbn [ar_seq_len ar_all_tokens ar_next_token ar_request].
  - lia.
  - rewrite length_app. simpl. lia.
  - now rewrite firstn_app, firstn_all, Nat.sub_diag, app_nil_r.
  - rewrite nth_error_app2, Nat.sub_diag by lia. reflexivity.
  - reflexivity.
  - rewrite firstn_app, firstn_all, Nat.sub_diag, app_nil_r.
    apply (@forward_holds (create_infer_request model) _ _ _ []).
    + apply create_infer_request_holds.
    + rewrite length_seq. lia.
  - replace (input_ids input ++ [t]) with (input_ids input ++ [t] ++ [])
      by now rewrite app_nil_r.
    intros j [Hj1 Hj2]. rewrite length_app in Hj2. simpl in Hj2.
    assert (j = length (input_ids input)) as -> by lia.
    exists sts, (attention_mask input).
    rewrite firstn_app, firstn_all, Nat.sub_diag, nth_error_app2 by lia.
    rewrite Nat.sub_diag. simpl. rewrite app_nil_r. subst t. auto.
  - reflexivity.
Qed.

Lemma ar_body_inv (n : nat) (st : ARState) :
  ar_inv input model n st -> exists st', ar_body st = Ok st' /\ ar_inv input model (S n) st'.
Proof.
  intros [Hseq Hlen Hprompt Hnext Hmodel Hholds Hgreedy Hcalls].
  unfold ar_body. rewrite infer_one_token. cbn [bind].
  destruct (@forward_single (ar_request st) (ar_next_token st)
              (ar_attention_mask st ++ [1%Z])
              (length (ar_attention_mask st ++ [1%Z])) _ Hholds)
    as [t [sts [Hlast [Ht Hsts]]]].
  rewrite Hlast. cbn [bind]. eexists. split; [reflexivity|].
  pose proof (@split_last _ _ _ Hlen Hnext) as Hall.
  rewrite <- Hall in Hsts. rewrite Hmodel in *.
  constructor; cbn [ar_seq_len ar_all_tokens ar_next_token ar_request].
  - lia.
  - rewrite length_app. simpl. lia.
  - rewrite firstn_app. replace (_ - _) with 0 by lia.
    simpl. now rewrite app_nil_r.
  - rewrite nth_error_app2 by lia.
    replace (_ - _) with 0 by lia. reflexivity.
  - exact Hmodel.
  - replace (firstn (ar_seq_len st + 1) (ar_all_tokens st ++ [t]))
      with (firstn (ar_seq_len st) (ar_all_tokens st) ++ [ar_next_token st]).
    + apply forward_holds; [exact Hholds|reflexivity].
    + rewrite <- Hall, firstn_app, firstn_all2 by lia.
      replace (_ - _) with 0 by lia. simpl. now rewrite app_nil_r.
  - apply greedy_from_app; [exact Hgreedy|].
    intros [|i] Hi; simpl in Hi; [|lia].
    exists sts, (ar_attention_mask st ++ [1%Z]).
    simpl. rewrite app_nil_r. split; [exact Hsts|now subst t].
  - rewrite forward_calls_length. lia.
Qed.

Lemma ar_while_total (N fuel : nat) :
  forall n st, ar_inv input model n st -> N - ar_seq_len st <= fuel ->
  exists st', ar_while fuel N st = Ok st'
              /\ ar_inv input model (n + (N - ar_seq_len st)) st'.
Proof.
  induction fuel as [|fuel IH]; intros n st HI Hfuel; cbn [ar_while];
    destruct (Nat.ltb_spec (ar_seq_len st) N) as [E|E]; try lia.
  - exists st. replace (N - ar_seq_len st) with 0 by lia.
    rewrite Nat.add_0_r. split; [reflexivity|exact HI].
  - destruct (@ar_body_inv n st HI) as [st1 [Hbody HI1]].
    rewrite Hbody. cbn [bind].
    assert (Hs : ar_seq_len st1 = ar_seq_len st + 1).
    { rewrite (ai_seq HI1), (ai_seq HI). lia. }
    destruct (IH (S n) st1 HI1) as [st' [Hw HI']]; [lia|].
    exists st'. split; [exact Hw|].
    replace (n + (N - ar_seq_len st)) with (S n + (N - ar_seq_len st1)) by lia.
    exact HI'.
  - exists st. replace (N - ar_seq_len st) with 0 by lia.
    rewrite Nat.add_0_r. split; [reflexivity|exact HI].
Qed.

(** The routine returns on every non-empty prompt, after
    [N - prompt_len] passes of its loop. *)
Lemma ar_run_total (N : nat) :
  input_ids input <> [] ->
  exists st, ar_run input model N = Ok st
             /\ ar_inv input model (N - length (input_ids input)) st.
Proof.
  intros Hne. destruct (ar_prime_inv Hne) as [st0 [Hprime HI0]].
  unfold ar_run. rewrite Hprime. cbn [bind].
  destruct (@ar_while_total N (N - ar_seq_len st0) 0 st0 HI0 (le_n _))
    as [st [Hw HI]].
  exists st. split; [exact Hw|].
  rewrite (ai_seq HI0), Nat.add_0_r in HI. exact HI.
Qed.
End Autoregressive.

(** ** The speculative routine *)

Section Speculative.
Variable input : Tokenized.
Variables draft_model main_model : Model.
Variable K : nat.
Hypothesis K_pos : 1 <= K.

Lemma sp_prime_inv :
  input_ids input <> [] ->
  exists st0, sp_prime input draft_model main_model = Ok st0 /\ sp_inv input main_model K 0 st0.
Proof.
  clear K_pos. intros Hne.
rewrite (@sp_prime_nonempty input draft_model main_model Hne).
  destruct (@forward_prompt main_model input Hne) as [t [sts [Hlast [Ht Hsts]]]].
  rewrite Hlast. cbn [bind]. eexists. split; [reflexivity|].
  constructor;
    cbn [sp_seq_len sp_all_tokens sp_first_token sp_main_request
         sp_draft_request sp_accum_draft_tokens].
  - reflexivity.
  - lia.
  - rewrite length_app. simpl. lia.
  - now rewrite firstn_app, firstn_all, Nat.sub_diag, app_nil_r.
  - rewrite nth_error_app2, Nat.sub_diag by lia. reflexivity.
  - reflexivity.
  - rewrite firstn_app, firstn_all, Nat.sub_diag, app_nil_r.
    apply (@forward_holds (create_infer_request main_model) _ _ _ []).
    + apply create_infer_request_holds.
    + rewrite length_seq. lia.
  - intros j [Hj1 Hj2]. rewrite length_app in Hj2. simpl in Hj2.
    assert (j = length (input_ids input)) as -> by lia.
    exists sts, (attention_mask input).
    rewrite firstn_app, firstn_all, Nat.sub_diag, nth_error_app2 by lia.
    rewrite Nat.sub_diag. simpl. rewrite app_nil_r. subst t. auto.
  - pose proof (@forward_all_length (create_infer_request draft_model)
                  (input_ids input) (attention_mask input)
                  (seq 0 (length (input_ids input))) 0
                  (all_length_repeat_nil _)) as H.
    rewrite length_seq, Nat.min_id in H. exact H.
  - reflexivity.
  - reflexivity.
Qed.

(** One pass keeps the invariant and accepts between 1 and [K] tokens. *)
Lemma sp_body_inv (n : nat) (st : SpecState) :
  sp_inv input main_model K n st ->
  exists d st', sp_body K st = Ok st' /\ sp_inv input main_model K (S n) st'
                /\ sp_seq_len st' = sp_seq_len st + (d + 1) /\ d < K.
Proof.
  intros [Hacc Hge Hlen Hprompt Hfirst Hmodel Hholds Hgreedy Hdc Hmc Hdcalls].
  destruct (@sp_body_total K st K_pos Hacc) as [draft [d [st' It]]].
  destruct (it_disagree It) as [Hlt [Hbefore _]].
  pose proof (it_draft_len It) as Hdl. rewrite Hdl in Hlt.
  pose proof (it_verify_len It) as Hvl.
  pose proof (@split_last _ _ _ Hlen Hfirst) as Hall.
  set (V := results (verified K st draft)) in *.
  set (ctx := firstn (sp_seq_len st) (sp_all_tokens st)) in *.
  assert (Hctx : length ctx = sp_seq_len st).
  { unfold ctx. rewrite length_firstn. lia. }
  assert (Hids : length (sp_first_token st :: removelast draft) = K).
  { cbn [length]. rewrite removelast_length. lia. }
  assert (Hagree : forall i, i <= d -> firstn i (removelast draft) = firstn i V).
  { intros i Hi. rewrite firstn_removelast by lia.
    apply firstn_agree. intros j Hj. apply Hbefore. lia. }
  assert (Hver : holds (verified K st draft)
                       (ctx ++ sp_first_token st :: removelast draft)).
  { apply forward_holds; [exact Hholds|]. rewrite Hids, length_seq. lia. }
  exists d, st'. split; [apply It|]. split; [|split; [apply It|exact Hlt]].
  constructor.
  - apply It.
  - rewrite (it_seq_len It). lia.
  - rewrite (it_all It), (it_seq_len It), length_app, length_firstn. fold V. lia.
  - rewrite (it_all It), firstn_app. replace (_ - _) with 0 by lia.
    simpl. now rewrite app_nil_r.
  - rewrite (it_all It), (it_seq_len It), nth_error_app2 by lia. fold V.
    replace (_ - _) with d by lia.
    rewrite nth_error_firstn.
    destruct (Nat.ltb_spec d (d + 1)); [apply It|lia].
  - rewrite (it_main It). exact Hmodel.
  - rewrite (it_main It).
    replace (firstn (sp_seq_len st') (sp_all_tokens st'))
      with (firstn (sp_seq_len st')
              (ctx ++ sp_first_token st :: removelast draft)).
    + now apply update_state_holds.
    + rewrite (it_all It), (it_seq_len It). fold V.
      rewrite <- Hctx at 1. rewrite firstn_app_2.
      replace (sp_seq_len st + (d + 1)) with (length (sp_all_tokens st) + d)
        by lia.
      rewrite firstn_app_2, firstn_firstn.
      replace (Nat.min d (d + 1)) with d by lia.
      replace (d + 1) with (S d) by lia. cbn [firstn].
      rewrite Hagree by lia. rewrite Hall.
      now rewrite <- app_assoc.
  - rewrite (it_all It). fold V.
    apply greedy_from_app; [exact Hgreedy|].
    intros i Hi. rewrite length_firstn in Hi.
    destruct (@forward_results_holds (sp_main_request st)
                (sp_first_token st :: removelast draft)
                (repeat 1%Z (sp_seq_len st + K)) (seq (sp_seq_len st) K)
                ctx i Hholds) as [sts [Hres Hsts]].
    { rewrite Hids, length_seq. lia. }
    { rewrite Hids. lia. }
    exists sts, (repeat 1%Z (sp_seq_len st + K)).
    rewrite Hmodel in *. split.
    + rewrite Hsts. f_equal. cbn [firstn].
      rewrite Hagree by lia. rewrite firstn_firstn.
      replace (Nat.min i (d + 1)) with i by lia.
      rewrite Hall. now rewrite <- app_assoc.
    + rewrite nth_error_firstn.
      destruct (Nat.ltb_spec i (d + 1)); [exact Hres|lia].
  - pose proof (it_draft_cache It Hdc) as H.
    rewrite (it_seq_len It) in *.
    replace (Nat.min (sp_seq_len st + K) (sp_seq_len st + (d + 1)))
      with (sp_seq_len st + (d + 1)) in H by lia.
    exact H.
  - rewrite (it_main It). cbn [update_state calls].
    unfold verified. rewrite forward_calls_length. lia.
  - rewrite (it_draft_calls It). lia.
Qed.

(** The loop, started at a state that satisfies the invariant, ends
    within [N - seq_len] passes at a state that satisfies it, with
    [seq_len] overshooting [N] by less than [K]. *)
Lemma sp_while_total (N : nat) (n0 : nat) (st : SpecState) :
  sp_inv input main_model K n0 st ->
  exists n st',
    sp_while (N - sp_seq_len st) K N st = Ok st'
    /\ sp_inv input main_model K (n0 + n) st'
    /\ n <= N - sp_seq_len st
    /\ N <= sp_seq_len st'
    /\ (sp_seq_len st < N -> 1 <= n /\ sp_seq_len st' < N + K)
    /\ (N <= sp_seq_len st -> st' = st).
Proof.
  intros HI.
  destruct (@sp_while_rule K N
              (fun n s => sp_inv input main_model K n s
                          /\ (sp_seq_len s = sp_seq_len st \/ sp_seq_len s < N + K)))
    with (fuel := N - sp_seq_len st) (n0 := n0) (st := st)
    as [n [st' [Hw [Hit [[HI' Hb] [HN [Hn Hmid]]]]]]]; auto.
  { intros m s [Hs _] Hlt.
    destruct (sp_body_inv Hs) as [d [s' [Hbody [Hs' [Hseq Hd]]]]].
    exists s'. split; [exact Hbody|]. split; [lia|].
    split; [exact Hs'|right; lia]. }
  exists n, st'. do 4 (split; [assumption|]). split.
  - intros Hlt. split; [|destruct Hb as [Hb|Hb]; lia].
    destruct n; [|lia]. simpl in Hit. injection Hit as <-. lia.
  - intros Hge. destruct n; [|lia]. simpl in Hit. now injection Hit.
Qed.

(** The routine returns on every non-empty prompt. *)
Lemma sp_run_total (N : nat) :
  input_ids input <> [] ->
  exists n st,
    sp_run input draft_model main_model K N = Ok st
    /\ sp_inv input main_model K n st
    /\ n <= N - length (input_ids input)
    /\ N <= sp_seq_len st
    /\ (length (input_ids input) < N -> 1 <= n /\ sp_seq_len st < N + K)
    /\ (N <= length (input_ids input) ->
        sp_seq_len st = length (input_ids input)).
Proof.
  intros Hne. destruct (sp_prime_inv Hne) as [st0 [Hprime HI0]].
  destruct (sp_prime_shape _ _ _ Hprime) as [Hlen _].
  unfold sp_run. rewrite Hprime. cbn [bind].
  destruct (@sp_while_total N 0 st0 HI0)
    as [n [st [Hw [HI [Hn [HN [Hlt Hge]]]]]]].
  rewrite Hlen in *.
  exists n, st. do 4 (split; [assumption|]). split; [exact Hlt|].
  intros H. now rewrite (Hge H).
Qed.
End Speculative.

(** ** The fuel given to the loops is enough *)

Lemma ar_while_fuel (N fuel : nat) :
  forall st, N - ar_seq_len st <= fuel ->
  exists st', ar_while fuel N st = Ok st'.
Proof.
  induction fuel as [|fuel IH]; intros st Hfuel; cbn [ar_while];
    destruct (Nat.ltb_spec (ar_seq_len st) N) as [E|E]; try lia;
    try (exists st; reflexivity).
  unfold ar_body. rewrite infer_one_token.
  cbn [forward results fed_entries map seq length combine firstn fst snd bind
       last_logit].
  apply IH. cbn [ar_seq_len]. lia.
Qed.

(** The autoregressive routine returns or raises on every input; it
    raises exactly on the empty prompt. *)
Lemma autoregressive_outcome (input : Tokenized) (model : Model) (N : nat) :
  (input_ids input = [] ->
   autoregressive_sampling_with_pkv input model N = Raise ValueError)
  /\ (input_ids input <> [] ->
      exists la, autoregressive_sampling_with_pkv input model N = Ok la).
Proof.
  split.
  - intros E. unfold autoregressive_sampling_with_pkv, ar_run.
    now rewrite (@ar_prime_empty input model E).
  - intros Hne. destruct (@ar_run_total input model N Hne) as [st [Hrun _]].
    exists (ar_all_tokens st).
    unfold autoregressive_sampling_with_pkv. now rewrite Hrun.
Qed.

Lemma sp_body_outcome (K : nat) (st : SpecState) :
  (exists st', sp_body K st = Ok st' /\ sp_seq_len st < sp_seq_len st')
  \/ (exists e, sp_body K st = Raise e).
Proof.
  unfold sp_body.
  destruct (draft_phase_total K st) as [st1 [Hrun Hext]].
  rewrite Hrun. cbn [bind]. unfold verify_phase, infer.
  destruct (_ =? _); cbn [bind]; [|right; eexists; reflexivity].
  unfold accept_phase.
  destruct (scan_disagree _ _ _ _) as [d|]; [|right; eexists; reflexivity].
  destruct (nth_error _ d) as [t|]; [|right; eexists; reflexivity].
  left. eexists. split; [reflexivity|].
  cbn [trim_phase accept sp_seq_len].
  rewrite (de_seq_len Hext). lia.
Qed.

Lemma sp_while_fuel (K N fuel : nat) :
  forall st, N - sp_seq_len st <= fuel -> sp_while fuel K N st <> OutOfFuel.
Proof.
  induction fuel as [|fuel IH]; intros st Hfuel; cbn [sp_while];
    destruct (Nat.ltb_spec (sp_seq_len st) N) as [E|E]; try lia;
    try discriminate.
  destruct (sp_body_outcome K st) as [[st' [Hbody Hlt]]|[e Hbody]];
    rewrite Hbody; cbn [bind]; [|discriminate].
  apply IH. lia.
Qed.

(** The speculative routine returns or raises on every input, for every
    [K]: the fuel [N - seq_len] never runs out. *)
Lemma speculative_outcome (input : Tokenized) (draft_model main_model : Model)
    (K N : nat) :
  speculative_sampling_with_pkv input draft_model main_model K N <> OutOfFuel.
Proof.
  unfold speculative_sampling_with_pkv, sp_run.
  destruct (sp_prime input draft_model main_model) as [st0| |] eqn:Hprime;
    cbn [bind]; try discriminate.
  - pose proof (@sp_while_fuel K N (N - sp_seq_len st0) st0 (le_n _)) as H.
    destruct (sp_while _ K N st0); cbn [bind]; congruence.
  - destruct (input_ids input) as [|t0 ids] eqn:Eids.
    + rewrite (@sp_prime_empty input draft_model main_model Eids) in Hprime.
      discriminate.
    + assert (Hne : input_ids input <> []) by (rewrite Eids; discriminate).
      rewrite (@sp_prime_nonempty input draft_model main_model Hne) in Hprime.
      destruct (last_logit _) as [t|e|] eqn:E; cbn [bind] in Hprime;
        try discriminate.
      exfalso. clear Hprime. revert E.
      generalize (results (forward (create_infer_request main_model)
                    (input_ids input) (attention_mask input)
                    (seq 0 (length (input_ids input))))).
      intros l. induction l as [|a [|b l] IH]; simpl in *; try discriminate.
      exact IH.
Qed.

(** Every pass of a run leaves the caches aligned: after the trim, each
    state of both requests has length [seq_len]. *)
Lemma cache_aligned_after_pass (input : Tokenized) (main_model : Model)
    (K n : nat) (st st' : SpecState) :
  1 <= K -> sp_inv input main_model K n st -> sp_body K st = Ok st' ->
  all_length (sp_seq_len st') (query_state (sp_draft_request st'))
  /\ all_length (sp_seq_len st') (query_state (sp_main_request st')).
Proof.
  intros HK HI Hbody.
  destruct (@sp_body_inv input main_model K HK n st HI)
    as [d [st'' [Hbody' [HI' _]]]].
  rewrite Hbody in Hbody'. injection Hbody' as <-.
  split; [apply HI'|].
  pose proof (holds_length (si_holds HI')) as H.
  rewrite length_firstn, (si_len HI') in H.
  replace (Nat.min (sp_seq_len st') (sp_seq_len st' + 1)) with (sp_seq_len st')
    in H by lia.
  exact H.
Qed.

(** ** The returned sequences *)

Lemma sp_body_resets (K : nat) (st st' : SpecState) :
  sp_body K st = Ok st' -> sp_accum_draft_tokens st' = [].
Proof.
  unfold sp_body.
  destruct (draft_phase K st) as [st1| |]; cbn [bind]; try discriminate.
  destruct (verify_phase K st1) as [st2| |]; cbn [bind]; try discriminate.
  destruct (accept_phase st2) as [st3| |]; cbn [bind]; try discriminate.
  now intros [= <-].
Qed.

(** C10.  With [K >= 1] and a non-empty prompt the routine returns
    [all_tokens] as the loop left it: every pass ends with
    [accum_draft_tokens] empty, so the final [extend] adds nothing.  The
    result starts with the prompt, and every later token is the main
    model's greedy choice on states that hold exactly the tokens
    returned before it, whatever the draft model is. *)
Theorem only_verifier_tokens (input : Tokenized) (draft_model main_model : Model)
    (K N : nat) :
  1 <= K -> input_ids input <> [] ->
  (forall st st', sp_body K st = Ok st' -> sp_accum_draft_tokens st' = [])
  /\ exists st,
       sp_run input draft_model main_model K N = Ok st
       /\ sp_accum_draft_tokens st = []
       /\ speculative_sampling_with_pkv input draft_model main_model K N
          = Ok (sp_all_tokens st)
       /\ firstn (length (input_ids input)) (sp_all_tokens st) = input_ids input
       /\ greedy_from main_model (length (input_ids input)) (sp_all_tokens st).
Proof.
  intros HK Hne. split; [apply sp_body_resets|].
  destruct (@sp_run_total input draft_model main_model K HK N Hne)
    as [n [st [Hrun [HI _]]]].
  exists st. split; [exact Hrun|]. split; [apply HI|].
  split; [|split; apply HI].
  unfold speculative_sampling_with_pkv. rewrite Hrun. cbn [bind].
  now rewrite (si_accum HI), app_nil_r.
Qed.

(** C1, as the code has it.  For a main model whose choice is determined
    by the token ids it has seen, a non-empty prompt and [K >= 1], both
    routines return, the autoregressive result is an initial segment of
    the speculative result, and the speculative result is longer by
    fewer than [K] tokens. *)
Theorem speculative_extends_autoregressive (input : Tokenized)
    (draft_model main_model : Model) (K N : nat) :
  1 <= K -> input_ids input <> [] -> token_determined main_model ->
  exists la ls,
    autoregressive_sampling_with_pkv input main_model N = Ok la
    /\ speculative_sampling_with_pkv input draft_model main_model K N = Ok ls
    /\ la = firstn (length la) ls
    /\ length la <= length ls < length la + K.
Proof.
  intros HK Hne Hdet.
  destruct (@ar_run_total input main_model N Hne) as [sa [Hra HA]].
  destruct (@sp_run_total input draft_model main_model K HK N Hne)
    as [n [ss [Hrs [HS [Hn [HN [Hlt Hge]]]]]]].
  exists (ar_all_tokens sa), (sp_all_tokens ss).
  assert (Hlen : length (ar_all_tokens sa) <= length (sp_all_tokens ss)
                 < length (ar_all_tokens sa) + K).
  { rewrite (ai_len HA), (si_len HS), (ai_seq HA).
    destruct (Nat.lt_ge_cases (length (input_ids input)) N) as [H|H].
    - destruct (Hlt H). clear Hlt Hge. lia.
    - rewrite (Hge H). clear Hlt Hge. lia. }
  split; [|split; [|split; [|exact Hlen]]].
  - unfold autoregressive_sampling_with_pkv. now rewrite Hra.
  - unfold speculative_sampling_with_pkv. rewrite Hrs. cbn [bind].
    now rewrite (si_accum HS), app_nil_r.
  - apply (@greedy_from_prefix main_model (length (input_ids input)));
      [exact Hdet|apply HA|apply HS| |].
    + now rewrite (ai_prompt HA), (si_prompt HS).
    + pose proof (ai_len HA) as H1. pose proof (ai_seq HA) as H2.
      clear Hlt Hge. lia.
Qed.

(** With a token-determined main model, both routines compute the
    naive greedy decoding of the prompt by that model: the autoregressive
    one for [N - prompt_len + 1] steps (one step when [N <= prompt_len]),
    the speculative one for at least as many and fewer than [K] more. *)
Lemma routines_decode_greedily (input : Tokenized)
    (draft_model main_model : Model) (K N : nat) :
  1 <= K -> input_ids input <> [] -> token_determined main_model ->
  exists extra,
    extra < K
    /\ autoregressive_sampling_with_pkv input main_model N
       = Ok (greedy_decode (next_of main_model) (input_ids input)
               (N - length (input_ids input) + 1))
    /\ speculative_sampling_with_pkv input draft_model main_model K N
       = Ok (greedy_decode (next_of main_model) (input_ids input)
               (N - length (input_ids input) + 1 + extra)).
Proof.
  intros HK Hne Hdet.
  destruct (@ar_run_total input main_model N Hne) as [sa [Hra HA]].
  destruct (@sp_run_total input draft_model main_model K HK N Hne)
    as [n [ss [Hrs [HS [Hn [HN [Hlt Hge]]]]]]].
  exists (sp_seq_len ss - (length (input_ids input)
                           + (N - length (input_ids input)))).
  pose proof (si_ge HS) as Hp.
  split; [|split].
  - destruct (Nat.lt_ge_cases (length (input_ids input)) N) as [H|H].
    + destruct (Hlt H). clear Hlt Hge. lia.
    + rewrite (Hge H). clear Hlt Hge. lia.
  - unfold autoregressive_sampling_with_pkv. rewrite Hra. cbn [bind].
    f_equal. rewrite <- (ai_prompt HA) at 1.
    apply (greedy_from_decode Hdet); [|apply HA].
    rewrite (ai_len HA), (ai_seq HA). lia.
  - unfold speculative_sampling_with_pkv. rewrite Hrs. cbn [bind].
    rewrite (si_accum HS), app_nil_r.
    f_equal. rewrite <- (si_prompt HS) at 1.
    apply (greedy_from_decode Hdet); [|apply HS].
    rewrite (si_len HS). clear Hlt Hge. lia.
Qed.

(** When the draft model and the main model always choose the same
    token, every pair agrees and a pass accepts [K] tokens: from a
    one-token prompt and [N = 2] the result has [N + K] entries. *)
Lemma full_agreement_overshoot (K : nat) (c : token) :
  1 <= K ->
  exists ls,
    speculative_sampling_with_pkv {| input_ids := [5%Z]; attention_mask := [1%Z] |}
      (constant_model c) (constant_model c) K 2 = Ok ls
    /\ length ls = 2 + K.
Proof.
  intros HK. unfold speculative_sampling_with_pkv, sp_run.
  assert (H0 : exists st0,
             sp_prime {| input_ids := [5%Z]; attention_mask := [1%Z] |}
                      (constant_model c) (constant_model c) = Ok st0
             /\ sp_accum_draft_tokens st0 = [] /\ sp_seq_len st0 = 1
             /\ length (sp_all_tokens st0) = 2
             /\ req_model (sp_draft_request st0) = constant_model c
             /\ req_model (sp_main_request st0) = constant_model c).
  { eexists. repeat split; reflexivity. }
  destruct H0 as [st0 [Hprime [Hacc [Hseq [Hall [Hdm Hmm]]]]]].
  rewrite Hprime. cbn [bind]. rewrite Hseq. change (2 - 1) with 1.
  cbn [sp_while]. rewrite Hseq. change (1 <? 2) with true. cbv iota.
  destruct (@sp_body_total K st0 HK Hacc) as [draft [d [st' It]]].
  rewrite (it_body It). cbn [bind].
  assert (Hsame : draft = results (verified K st0 draft)).
  { apply nth_error_ext. intros i.
    destruct (Nat.lt_ge_cases i K) as [Hi|Hi].
    - unfold verified at 1. rewrite forward_results_nth, Hmm.
      2:{ cbn [length]. rewrite removelast_length, length_seq, (it_draft_len It). lia. }
      destruct (nth_error draft i) as [t|] eqn:E.
      + pose proof (it_draft_pred It) as Hp. rewrite Forall_forall in Hp.
        destruct (Hp t (nth_error_In _ _ E)) as [sts [mask ->]].
        now rewrite Hdm.
      + apply nth_error_None in E. rewrite (it_draft_len It) in E. lia.
    - transitivity (@None token); [|symmetry]; apply nth_error_None.
      + rewrite (it_draft_len It). lia.
      + rewrite (it_verify_len It). lia. }
  assert (Hd : d = K - 1).
  { destruct (it_disagree It) as [_ [_ [Hat|[Hd _]]]].
    - elim Hat. now rewrite <- Hsame.
    - now rewrite (it_draft_len It) in Hd. }
  assert (Hs' : sp_seq_len st' = 1 + K) by (rewrite (it_seq_len It); lia).
  destruct (Nat.ltb_spec (sp_seq_len st') 2) as [H|H]; [lia|].
  eexists. split; [reflexivity|].
  rewrite (it_accum It), app_nil_r, (it_all It), length_app, length_firstn.
  rewrite (it_verify_len It). lia.
Qed.

(** C9.  With [K >= 1], a non-empty prompt and [prompt_len < N], the
    speculative routine returns [seq_len + 1] tokens for the final
    [seq_len], which lies between [N] and [N + K - 1]; the autoregressive
    routine returns exactly [N + 1] tokens; and the upper bound is
    reached for this [K] by some prompt and pair of models. *)
Theorem result_length (input : Tokenized) (draft_model main_model : Model)
    (K N : nat) :
  1 <= K -> input_ids input <> [] -> length (input_ids input) < N ->
  (exists st ls,
     sp_run input draft_model main_model K N = Ok st
     /\ speculative_sampling_with_pkv input draft_model main_model K N = Ok ls
     /\ length ls = sp_seq_len st + 1
     /\ N <= sp_seq_len st <= N + K - 1)
  /\ (exists la,
        autoregressive_sampling_with_pkv input main_model N = Ok la
        /\ length la = N + 1)
  /\ (exists input' draft' main' N' ls',
        length (input_ids input') < N'
        /\ speculative_sampling_with_pkv input' draft' main' K N' = Ok ls'
        /\ length ls' = (N' + K - 1) + 1).
Proof.
  intros HK Hne Hlt. split; [|split].
  - destruct (@sp_run_total input draft_model main_model K HK N Hne)
      as [n [st [Hrun [HI [_ [HN [Hb _]]]]]]].
    destruct (Hb Hlt) as [_ Hup].
    exists st, (sp_all_tokens st).
    split; [exact Hrun|]. split; [|split; [apply HI|lia]].
    unfold speculative_sampling_with_pkv. rewrite Hrun. cbn [bind].
    now rewrite (si_accum HI), app_nil_r.
  - destruct (@ar_run_total input main_model N Hne) as [sa [Hra HA]].
    exists (ar_all_tokens sa). split.
    + unfold autoregressive_sampling_with_pkv. now rewrite Hra.
    + rewrite (ai_len HA), (ai_seq HA). lia.
  - destruct (@full_agreement_overshoot K 7%Z HK) as [ls [Hrun Hlen]].
    exists {| input_ids := [5%Z]; attention_mask := [1%Z] |},
           (constant_model 7%Z), (constant_model 7%Z), 2, ls.
    split; [simpl; lia|]. split; [exact Hrun|lia].
Qed.

(** C8, as the code has it.  With [K >= 1], a non-empty prompt and
    [prompt_len < N], the autoregressive routine issues one call on the
    prompt and [N - prompt_len] calls in its loop; the speculative
    routine issues one call of the main model on the prompt and then one
    batched call per pass, at most [N - prompt_len] of them, so at most
    [N] calls of the main model in all. *)
Theorem forward_pass_counts (input : Tokenized) (draft_model main_model : Model)
    (K N : nat) :
  1 <= K -> input_ids input <> [] -> length (input_ids input) < N ->
  (exists sa,
     ar_run input main_model N = Ok sa
     /\ length (calls (ar_request sa)) = 1 + (N - length (input_ids input)))
  /\ (exists ss passes,
        sp_run input draft_model main_model K N = Ok ss
        /\ length (calls (sp_main_request ss)) = 1 + passes
        /\ 1 <= passes <= N - length (input_ids input)
        /\ length (calls (sp_main_request ss)) <= N
        /\ length (calls (sp_draft_request ss)) = 1 + passes * K).
Proof.
  intros HK Hne Hlt.
  assert (Hpos : 0 < length (input_ids input)).
  { destruct (input_ids input); [congruence|simpl; lia]. }
  split.
  - destruct (@ar_run_total input main_model N Hne) as [sa [Hra HA]].
    exists sa. split; [exact Hra|apply HA].
  - destruct (@sp_run_total input draft_model main_model K HK N Hne)
      as [n [ss [Hrs [HS [Hn [_ [Hb _]]]]]]].
    destruct (Hb Hlt) as [Hn1 _].
    exists ss, n. split; [exact Hrs|]. split; [apply HS|].
    split; [lia|]. split; [rewrite (si_main_calls HS); lia|apply HS].
Qed.

(** C7, as the code has it.  With [K = 0] nothing is checked: both
    models are first run on the prompt; when [N <= prompt_len] the loop
    is skipped and the prompt followed by the first token is returned;
    when [prompt_len < N] the call is not rejected before the loop: the
    first pass runs, makes no draft call, and ends in an exception, so
    that no list is returned. *)
Theorem zero_K_not_validated (input : Tokenized) (draft_model main_model : Model)
    (N : nat) :
  input_ids input <> [] ->
  exists st0,
    sp_prime input draft_model main_model = Ok st0
    /\ (N <= length (input_ids input) ->
        speculative_sampling_with_pkv input draft_model main_model 0 N
        = Ok (input_ids input ++ [sp_first_token st0]))
    /\ (length (input_ids input) < N ->
        exists st1 e,
          draft_phase 0 st0 = Ok st1
          /\ sp_accum_draft_tokens st1 = []
          /\ calls (sp_draft_request st1) = calls (sp_draft_request st0)
          /\ sp_body 0 st0 = Raise e
          /\ speculative_sampling_with_pkv input draft_model main_model 0 N
             = Raise e).
Proof.
  intros Hne.
  destruct (@sp_prime_inv input draft_model main_model 0 Hne) as [st0 [Hprime _]].
  destruct (sp_prime_shape _ _ _ Hprime) as [Hseq [Hacc [Hall Hidx]]].
  assert (Hbody : sp_body 0 st0 = Raise RuntimeError).
  { unfold sp_body, draft_phase. cbn [draft_loop bind].
    unfold verify_phase.
    cbn [sp_accum_draft_tokens sp_first_token sp_seq_len sp_main_request].
    rewrite Hacc. rewrite infer_mismatch by (simpl; lia). reflexivity. }
  exists st0. split; [exact Hprime|]. split.
  - intros HN. unfold speculative_sampling_with_pkv, sp_run.
    rewrite Hprime. cbn [bind]. rewrite Hseq.
    replace (N - length (input_ids input)) with 0 by lia.
    cbn [sp_while]. rewrite Hseq.
    destruct (Nat.ltb_spec (length (input_ids input)) N) as [H|H]; [lia|].
    cbn [bind]. now rewrite Hacc, app_nil_r, Hall.
  - intros HN. eexists _, RuntimeError.
    split; [reflexivity|]. split; [exact Hacc|]. split; [reflexivity|].
    split; [exact Hbody|].
    unfold speculative_sampling_with_pkv, sp_run.
    rewrite Hprime. cbn [bind]. rewrite Hseq.
    destruct (N - length (input_ids input)) as [|fuel] eqn:E; [lia|].
    cbn [sp_while]. rewrite Hseq.
    destruct (Nat.ltb_spec (length (input_ids input)) N) as [H|H]; [|lia].
    rewrite Hbody. reflexivity.
Qed.

(** ** Runs on the sample models *)

Lemma counting_model_token_determined : token_determined counting_model.
Proof.
  intros sts sts' mask mask' H. simpl. f_equal.
  destruct sts as [|s sts], sts' as [|s' sts']; simpl in *; try discriminate;
    [reflexivity|].
  injection H as H _. unfold tokens_of in H.
  now rewrite <- (length_map e_tok s), H, length_map.
Qed.

(** C1 fails as stated: on a one-token prompt with [K = 2] and [N = 2],
    with the same model as draft and main model, the autoregressive
    routine returns three tokens and the speculative one four. *)
Lemma speculative_overshoots_autoregressive :
  autoregressive_sampling_with_pkv prompt1 counting_model 2
  = Ok [5%Z; 1%Z; 2%Z]
  /\ speculative_sampling_with_pkv prompt1 counting_model counting_model 2 2
     = Ok [5%Z; 1%Z; 2%Z; 3%Z]
  /\ autoregressive_sampling_with_pkv prompt1 counting_model 2
     <> speculative_sampling_with_pkv prompt1 counting_model counting_model 2 2.
Proof.
  split; [reflexivity|]. split; [reflexivity|].
  vm_compute. discriminate.
Qed.

(** The two routines feed the main model different position ids after
    the prompt, so the hypothesis [token_determined] cannot be dropped:
    with a model that reads the last position id, the results differ at
    a shared index. *)
Lemma position_ids_differ :
  autoregressive_sampling_with_pkv prompt1 position_model 2
  = Ok [5%Z; 0%Z; 2%Z]
  /\ speculative_sampling_with_pkv prompt1 position_model position_model 1 2
     = Ok [5%Z; 0%Z; 1%Z].
Proof. split; reflexivity. Qed.

(** C6 fails as stated: in the first pass from [head_example] with
    [K = 1] the draft token is 9, and the batched call (the second call
    of the main request) is fed the first token 1 instead. *)
Lemma verifier_fed_first_token_not_draft :
  (st1 <- draft_phase 1 head_example ;;
   st2 <- verify_phase 1 st1 ;;
   Ok (sp_accum_draft_tokens st1,
       map c_input_ids (calls (sp_main_request st2))))
  = Ok ([9%Z], [[5%Z]; [1%Z]])
  /\ [1%Z] <> [9%Z].
Proof. split; [reflexivity|discriminate]. Qed.

(** C7 fails as stated: a call with [K = 0] and [N = 1] on a one-token
    prompt is not rejected; it returns the prompt and the first token. *)
Lemma zero_K_accepted :
  speculative_sampling_with_pkv prompt1 (constant_model 9%Z) counting_model 0 1
  = Ok [5%Z; 1%Z].
Proof. reflexivity. Qed.

(** C8 fails as stated: with a one-token prompt and [N = 2] the
    autoregressive routine issues two calls, not [N - prompt_len = 1]. *)
Lemma autoregressive_counts_prompt_call :
  (st <- ar_run prompt1 counting_model 2 ;; Ok (length (calls (ar_request st))))
  = Ok 2
  /\ 2 - length (input_ids prompt1) = 1.
Proof. split; reflexivity. Qed.

(** ** The theorems at concrete inputs *)

Lemma speculative_extends_autoregressive_witness :
  1 <= 2 /\ input_ids prompt1 <> [] /\ token_determined counting_model
  /\ exists la ls,
       autoregressive_sampling_with_pkv prompt1 counting_model 4 = Ok la
       /\ speculative_sampling_with_pkv prompt1 (constant_model 3%Z)
            counting_model 2 4 = Ok ls
       /\ la = firstn (length la) ls
       /\ length la <= length ls < length la + 2.
Proof.
  assert (H1 : 1 <= 2) by lia.
  assert (H2 : input_ids prompt1 <> []) by (simpl; discriminate).
  split; [exact H1|]. split; [exact H2|].
  split; [exact counting_model_token_determined|].
  exact (@speculative_extends_autoregressive prompt1 (constant_model 3%Z)
           counting_model 2 4 H1 H2 counting_model_token_determined).
Defined.

Lemma acceptance_rule_witness :
  1 <= 2 /\ sp_accum_draft_tokens head_example = []
  /\ exists st1 st2 st' d,
       draft_phase 2 head_example = Ok st1 /\ verify_phase 2 st1 = Ok st2
       /\ sp_body 2 head_example = Ok st'
       /\ length (sp_accum_draft_tokens st1) = 2
       /\ Forall (drafted_by (req_model (sp_draft_request head_example)))
                 (sp_accum_draft_tokens st1)
       /\ infer (sp_main_request head_example)
                (sp_first_token head_example
                 :: removelast (sp_accum_draft_tokens st1))
                (repeat 1%Z (sp_seq_len head_example + 2))
                (seq (sp_seq_len head_example) 2)
          = Ok (sp_main_request st2)
       /\ sp_next_tokens st2 = results (sp_main_request st2)
       /\ length (results (sp_main_request st2)) = 2
       /\ (forall i, i < 2 ->
             nth_error (results (sp_main_request st2)) i
             = Some (predict (req_model (sp_main_request head_example))
                       (map (fun s =>
                               s ++ firstn (S i)
                                      (fed_entries
                                         (sp_first_token head_example
                                          :: removelast
                                               (sp_accum_draft_tokens st1))
                                         (seq (sp_seq_len head_example) 2)))
                            (query_state (sp_main_request head_example)))
                       (repeat 1%Z (sp_seq_len head_example + 2))))
       /\ sp_disagree_idx st' = Some d
       /\ d < 2
       /\ (forall i, i < d ->
             nth_error (sp_accum_draft_tokens st1) i
             = nth_error (results (sp_main_request st2)) i)
       /\ (nth_error (sp_accum_draft_tokens st1) d
            <> nth_error (results (sp_main_request st2)) d
           \/ (d = 2 - 1
               /\ sp_accum_draft_tokens st1 = results (sp_main_request st2)))
       /\ sp_all_tokens st'
          = sp_all_tokens head_example
            ++ firstn (d + 1) (results (sp_main_request st2)).
Proof.
  assert (H1 : 1 <= 2) by lia.
  split; [exact H1|]. split; [reflexivity|].
  exact (@acceptance_rule 2 head_example H1 eq_refl).
Defined.

Lemma progress_and_termination_witness :
  1 <= 2 /\ sp_accum_draft_tokens head_example = []
  /\ (exists d st',
        sp_body 2 head_example = Ok st'
        /\ sp_disagree_idx st' = Some d
        /\ sp_seq_len st' = sp_seq_len head_example + (d + 1)
        /\ 1 <= d + 1 <= 2
        /\ sp_accum_draft_tokens st' = [])
  /\ (exists n st',
        sp_while (4 - sp_seq_len head_example) 2 4 head_example = Ok st'
        /\ sp_iterate n 2 head_example = Ok st'
        /\ n <= 4 - sp_seq_len head_example
        /\ 4 <= sp_seq_len st'
        /\ (forall m, m < n ->
              exists st_m, sp_iterate m 2 head_example = Ok st_m
                           /\ sp_seq_len st_m < 4)).
Proof.
  assert (H1 : 1 <= 2) by lia.
  split; [exact H1|]. split; [reflexivity|].
  exact (@progress_and_termination 2 4 head_example H1 eq_refl).
Defined.

Lemma trim_phase_cache_length_witness :
  all_length (1 + 2) (query_state (sp_draft_request untrimmed_example))
  /\ all_length (1 + 2) (query_state (sp_main_request untrimmed_example))
  /\ sp_seq_len untrimmed_example <= 1 + 2
  /\ sp_seq_len (trim_phase untrimmed_example) = sp_seq_len untrimmed_example
  /\ all_length (sp_seq_len untrimmed_example)
       (query_state (sp_draft_request (trim_phase untrimmed_example)))
  /\ all_length (sp_seq_len untrimmed_example)
       (query_state (sp_main_request (trim_phase untrimmed_example)))
  /\ query_state (sp_draft_request (trim_phase untrimmed_example))
     = map (firstn (sp_seq_len untrimmed_example))
           (query_state (sp_draft_request untrimmed_example))
  /\ query_state (sp_main_request (trim_phase untrimmed_example))
     = map (firstn (sp_seq_len untrimmed_example))
           (query_state (sp_main_request untrimmed_example))
  /\ length (query_state (sp_draft_request (trim_phase untrimmed_example)))
     = length (query_state (sp_draft_request untrimmed_example))
  /\ length (query_state (sp_main_request (trim_phase untrimmed_example)))
     = length (query_state (sp_main_request untrimmed_example))
  /\ (forall i s,
        nth_error (query_state (sp_draft_request untrimmed_example)) i
        = Some s ->
        exists s',
          nth_error
            (query_state (sp_draft_request (trim_phase untrimmed_example))) i
          = Some s'
          /\ s' = firstn (sp_seq_len untrimmed_example) s
          /\ length s' = sp_seq_len untrimmed_example)
  /\ (forall i s,
        nth_error (query_state (sp_main_request untrimmed_example)) i
        = Some s ->
        exists s',
          nth_error
            (query_state (sp_main_request (trim_phase untrimmed_example))) i
          = Some s'
          /\ s' = firstn (sp_seq_len untrimmed_example) s
          /\ length s' = sp_seq_len untrimmed_example)
  /\ req_model (sp_draft_request (trim_phase untrimmed_example))
     = req_model (sp_draft_request untrimmed_example)
  /\ req_model (sp_main_request (trim_phase untrimmed_example))
     = req_model (sp_main_request untrimmed_example).
Proof.
  assert (H1 : all_length (1 + 2)
                 (query_state (sp_draft_request untrimmed_example))).
  { unfold all_length. simpl. repeat constructor. }
  assert (H2 : all_length (1 + 2)
                 (query_state (sp_main_request untrimmed_example))).
  { unfold all_length. simpl. repeat constructor. }
  assert (H3 : sp_seq_len untrimmed_example <= 1 + 2) by (simpl; lia).
  split; [exact H1|]. split; [exact H2|]. split; [exact H3|].
  exact (@trim_phase_cache_length untrimmed_example 1 2 H1 H2 H3).
Defined.

Lemma verifier_call_inputs_witness :
  1 <= 2 /\ sp_accum_draft_tokens head_example = []
  /\ exists st1 st',
       draft_phase 2 head_example = Ok st1 /\ sp_body 2 head_example = Ok st'
       /\ length (sp_accum_draft_tokens st1) = 2
       /\ calls (sp_main_request st')
          = calls (sp_main_request head_example)
            ++ [ {| c_input_ids :=
                      sp_first_token head_example
                      :: removelast (sp_accum_draft_tokens st1);
                    c_attention_mask := repeat 1%Z (sp_seq_len head_example + 2);
                    c_position_ids := seq (sp_seq_len head_example) 2 |} ]
       /\ length (sp_first_token head_example
                  :: removelast (sp_accum_draft_tokens st1)) = 2.
Proof.
  assert (H1 : 1 <= 2) by lia.
  split; [exact H1|]. split; [reflexivity|].
  exact (@verifier_call_inputs 2 head_example H1 eq_refl).
Defined.

Lemma zero_K_not_validated_witness :
  input_ids prompt1 <> []
  /\ exists st0,
       sp_prime prompt1 (constant_model 9%Z) counting_model = Ok st0
       /\ (3 <= length (input_ids prompt1) ->
           speculative_sampling_with_pkv prompt1 (constant_model 9%Z)
             counting_model 0 3
           = Ok (input_ids prompt1 ++ [sp_first_token st0]))
       /\ (length (input_ids prompt1) < 3 ->
           exists st1 e,
             draft_phase 0 st0 = Ok st1
             /\ sp_accum_draft_tokens st1 = []
             /\ calls (sp_draft_request st1) = calls (sp_draft_request st0)
             /\ sp_body 0 st0 = Raise e
             /\ speculative_sampling_with_pkv prompt1 (constant_model 9%Z)
                  counting_model 0 3
                = Raise e).
Proof.
  assert (H1 : input_ids prompt1 <> []) by (simpl; discriminate).
  split; [exact H1|].
  exact (@zero_K_not_validated prompt1 (constant_model 9%Z) counting_model 3 H1).
Defined.

Lemma forward_pass_counts_witness :
  1 <= 2 /\ input_ids prompt1 <> [] /\ length (input_ids prompt1) < 4
  /\ (exists sa,
        ar_run prompt1 counting_model 4 = Ok sa
        /\ length (calls (ar_request sa)) = 1 + (4 - length (input_ids prompt1)))
  /\ (exists ss passes,
        sp_run prompt1 (constant_model 3%Z) counting_model 2 4 = Ok ss
        /\ length (calls (sp_main_request ss)) = 1 + passes
        /\ 1 <= passes <= 4 - length (input_ids prompt1)
        /\ length (calls (sp_main_request ss)) <= 4
        /\ length (calls (sp_draft_request ss)) = 1 + passes * 2).
Proof.
  assert (H1 : 1 <= 2) by lia.
  assert (H2 : input_ids prompt1 <> []) by (simpl; discriminate).
  assert (H3 : length (input_ids prompt1) < 4) by (simpl; lia).
  split; [exact H1|]. split; [exact H2|]. split; [exact H3|].
  exact (@forward_pass_counts prompt1 (constant_model 3%Z) counting_model 2 4
           H1 H2 H3).
Defined.

Lemma result_length_witness :
  1 <= 2 /\ input_ids prompt1 <> [] /\ length (input_ids prompt1) < 4
  /\ (exists st ls,
        sp_run prompt1 (constant_model 3%Z) counting_model 2 4 = Ok st
        /\ speculative_sampling_with_pkv prompt1 (constant_model 3%Z)
             counting_model 2 4 = Ok ls
        /\ length ls = sp_seq_len st + 1
        /\ 4 <= sp_seq_len st <= 4 + 2 - 1)
  /\ (exists la,
        autoregressive_sampling_with_pkv prompt1 counting_model 4 = Ok la
        /\ length la = 4 + 1)
  /\ (exists input' draft' main' N' ls',
        length (input_ids input') < N'
        /\ speculative_sampling_with_pkv input' draft' main' 2 N' = Ok ls'
        /\ length ls' = (N' + 2 - 1) + 1).
Proof.
  assert (H1 : 1 <= 2) by lia.
  assert (H2 : input_ids prompt1 <> []) by (simpl; discriminate).
  assert (H3 : length (input_ids prompt1) < 4) by (simpl; lia).
  split; [exact H1|]. split; [exact H2|]. split; [exact H3|].
  exact (@result_length prompt1 (constant_model 3%Z) counting_model 2 4
           H1 H2 H3).
Defined.

Lemma only_verifier_tokens_witness :
  1 <= 2 /\ input_ids prompt1 <> []
  /\ (forall st st', sp_body 2 st = Ok st' -> sp_accum_draft_tokens st' = [])
  /\ exists st,
       sp_run prompt1 (constant_model 3%Z) counting_model 2 4 = Ok st
       /\ sp_accum_draft_tokens st = []
       /\ speculative_sampling_with_pkv prompt1 (constant_model 3%Z)
            counting_model 2 4 = Ok (sp_all_tokens st)
       /\ firstn (length (input_ids prompt1)) (sp_all_tokens st)
          = input_ids prompt1
       /\ greedy_from counting_model (length (input_ids prompt1))
                      (sp_all_tokens st).
Proof.
  assert (H1 : 1 <= 2) by lia.
  assert (H2 : input_ids prompt1 <> []) by (simpl; discriminate).
  split; [exact H1|]. split; [exact H2|].
  exact (@only_verifier_tokens prompt1 (constant_model 3%Z) counting_model 2 4
           H1 H2).
Defined.

(** * Further properties of the routines *)

(** ** [update_state] *)

(** X1.  Two trims in a row amount to one trim to the smaller of the two
    target lengths, whatever their order. *)
Theorem update_state_compose (request : InferRequest) (a b : nat) :
  update_state (update_state request a) b = update_state request (Nat.min a b)
  /\ update_state (update_state request a) b
     = update_state (update_state request b) a.
Proof.
  assert (H : forall x y,
             update_state (update_state request x) y
             = update_state request (Nat.min x y)).
  { intros x y. unfold update_state; simpl. f_equal.
    rewrite map_map. apply map_ext. intros s.
    rewrite !trim_state_firstn, firstn_firstn. f_equal. apply Nat.min_comm. }
  split; [apply H|]. now rewrite !H, Nat.min_comm.
Qed.

(** X2.  A trim returns the request as it was exactly when no state is
    longer than the target length. *)
Theorem update_state_noop_iff (request : InferRequest) (seq_len : nat) :
  update_state request seq_len = request
  <-> Forall (fun s => length s <= seq_len) (query_state request).
Proof.
  split.
  - intros H. apply (f_equal query_state) in H. simpl in H.
    induction (query_state request) as [|s sts IH]; [constructor|].
    simpl in H. injection H as Hs Hsts. constructor; [|now apply IH].
    apply (f_equal (@length entry)) in Hs.
    rewrite trim_state_length in Hs. lia.
  - intros H. destruct request as [m sts res cs]. unfold update_state; simpl in *.
    f_equal. induction H as [|s sts Hs _ IH]; [reflexivity|].
    simpl. rewrite IH. f_equal.
    unfold trim_state. destruct (Nat.leb_spec (length s) seq_len); [reflexivity|lia].
Qed.

(** ** Edge cases of the two routines *)



(** ** Independence from the draft model *)

Lemma greedy_decode_app (next : list token -> token) (n k : nat) :
  forall ctx,
  greedy_decode next ctx (n + k) = greedy_decode next (greedy_decode next ctx n) k.
Proof.
  induction n as [|n IH]; intros ctx; [reflexivity|].
  simpl. apply IH.
Qed.

Lemma greedy_decode_extends (next : list token -> token) (n : nat) :
  forall ctx, exists new,
    greedy_decode next ctx n = ctx ++ new /\ length new = n.
Proof.
  induction n as [|n IH]; intros ctx.
  - exists []. now rewrite app_nil_r.
  - simpl. destruct (IH (ctx ++ [next ctx])) as [new [H Hlen]].
    exists (next ctx :: new). rewrite H, <- app_assoc. simpl. auto.
Qed.

Lemma greedy_decode_initial (next : list token -> token) (ctx : list token)
    (n k : nat) :
  initial_segment (greedy_decode next ctx n) (greedy_decode next ctx (n + k)).
Proof.
  unfold initial_segment. rewrite greedy_decode_app.
  destruct (greedy_decode_extends next k (greedy_decode next ctx n))
    as [new [H _]].
  rewrite H, firstn_app, Nat.sub_diag, firstn_all. simpl.
  now rewrite app_nil_r.
Qed.

(** X5.  With [K = 1] and a main model determined by the token ids it
    has seen, the speculative routine returns exactly the sequence the
    autoregressive routine returns, whatever the draft model is. *)
Theorem lockstep_equals_autoregressive (input : Tokenized)
    (draft_model main_model : Model) (N : nat) :
  input_ids input <> [] -> token_determined main_model ->
  exists l,
    autoregressive_sampling_with_pkv input main_model N = Ok l
    /\ speculative_sampling_with_pkv input draft_model main_model 1 N = Ok l.
Proof.
  intros Hne Hdet.
  destruct (@routines_decode_greedily input draft_model main_model 1 N
              (le_n 1) Hne Hdet) as [extra [Hextra [Ha Hs]]].
  assert (extra = 0) as -> by lia. rewrite Nat.add_0_r in Hs.
  eexists. split; [exact Ha|exact Hs].
Qed.

(** X6.  With a main model determined by the token ids it has seen, the
    draft model and [K] decide only how many tokens are returned, never
    which: of the results for two draft models and two values of [K],
    one is an initial segment of the other. *)
Theorem draft_changes_length_only (input : Tokenized)
    (draft1 draft2 main_model : Model) (K1 K2 N : nat) :
  1 <= K1 -> 1 <= K2 -> input_ids input <> [] -> token_determined main_model ->
  exists l1 l2,
    speculative_sampling_with_pkv input draft1 main_model K1 N = Ok l1
    /\ speculative_sampling_with_pkv input draft2 main_model K2 N = Ok l2
    /\ (initial_segment l1 l2 \/ initial_segment l2 l1).
Proof.
  intros HK1 HK2 Hne Hdet.
  destruct (@routines_decode_greedily input draft1 main_model K1 N HK1 Hne Hdet)
    as [e1 [_ [_ H1]]].
  destruct (@routines_decode_greedily input draft2 main_model K2 N HK2 Hne Hdet)
    as [e2 [_ [_ H2]]].
  eexists _, _. split; [exact H1|]. split; [exact H2|].
  destruct (Nat.le_gt_cases e1 e2) as [H|H].
  - left. replace e2 with (e1 + (e2 - e1)) by lia.
    rewrite Nat.add_assoc. apply greedy_decode_initial.
  - right. replace e1 with (e2 + (e1 - e2)) by lia.
    rewrite Nat.add_assoc. apply greedy_decode_initial.
Qed.

(** ** What the draft loop feeds and leaves in the draft request *)

Lemma forward_single_logit r t mask pos :
  last_logit (results (forward r [t] mask [pos]))
  = Ok (predict (req_model r)
          (map (fun s => s ++ [Entry t pos]) (query_state r)) mask).
Proof. reflexivity. Qed.

Lemma draft_trace_succ (mask : list Z) (t t1 : token) (new : list token)
    (k : nat) :
  draft_trace mask t (t1 :: new) (S k)
  = {| c_input_ids := [t];
       c_attention_mask := mask ++ [1%Z];
       c_position_ids := [length (mask ++ [1%Z])] |}
    :: draft_trace (mask ++ [1%Z]) t1 new k.
Proof.
  unfold draft_trace. cbn [seq map]. f_equal.
  - rewrite length_app. simpl. f_equal. f_equal. lia.
  - rewrite <- seq_shift, map_map. apply map_ext. intros i.
    rewrite length_app, <- app_assoc. simpl.
    f_equal. f_equal. lia.
Qed.

Lemma draft_loop_holds (k : nat) :
  forall st st' ctx,
  draft_loop k st = Ok st' -> holds (sp_draft_request st) ctx ->
  exists new,
    sp_accum_draft_tokens st' = sp_accum_draft_tokens st ++ new
    /\ length new = k
    /\ req_model (sp_draft_request st') = req_model (sp_draft_request st)
    /\ holds (sp_draft_request st') (ctx ++ firstn k (sp_next_token st :: new))
    /\ (forall i, i < k ->
          exists sts mask,
            map tokens_of sts
            = repeat (ctx ++ firstn (S i) (sp_next_token st :: new))
                     (n_states (req_model (sp_draft_request st)))
            /\ nth_error new i
               = Some (predict (req_model (sp_draft_request st)) sts mask))
    /\ calls (sp_draft_request st')
       = calls (sp_draft_request st)
         ++ draft_trace (sp_attention_mask st) (sp_next_token st) new k.
Proof.
  induction k as [|k IH]; intros st st' ctx Hrun Hholds.
  - injection Hrun as <-. exists []. rewrite !app_nil_r.
    repeat split; auto. intros i Hi. lia.
  - cbn [draft_loop] in Hrun. rewrite infer_one_token in Hrun.
    cbn [bind] in Hrun. rewrite forward_single_logit in Hrun.
    cbn [bind] in Hrun.
    set (t := sp_next_token st) in *.
    set (mask1 := sp_attention_mask st ++ [1%Z]) in *.
    set (r1 := forward (sp_draft_request st) [t] mask1 [length mask1]) in *.
    set (t1 := predict (req_model (sp_draft_request st))
                 (map (fun s => s ++ [Entry t (length mask1)])
                      (query_state (sp_draft_request st))) mask1) in *.
    assert (H1 : holds r1 (ctx ++ [t])).
    { apply forward_holds; [exact Hholds|reflexivity]. }
    destruct (IH _ st' (ctx ++ [t]) Hrun H1)
      as [new [Hacc [Hlen [Hmodel [Hh [Hpred Hcalls]]]]]].
    cbn [sp_accum_draft_tokens sp_next_token sp_draft_request
         sp_attention_mask] in *.
    exists (t1 :: new). split; [now rewrite Hacc, <- app_assoc|].
    split; [simpl; now rewrite Hlen|].
    split; [exact Hmodel|].
    split; [cbn [firstn]; now rewrite <- app_assoc in Hh|].
    split.
    + intros [|i] Hi.
      * exists (map (fun s => s ++ [Entry t (length mask1)])
                    (query_state (sp_draft_request st))), mask1.
        split; [|reflexivity].
        apply (map_repeat_ctx (fun c => c ++ [t])); [|exact Hholds].
        intros s. now rewrite tokens_of_app.
      * destruct (Hpred i) as [sts [mask [Hsts Hnth]]]; [lia|].
        exists sts, mask. split; [|exact Hnth].
        rewrite Hsts, <- app_assoc. reflexivity.
    + rewrite Hcalls, draft_trace_succ. unfold r1. cbn [forward calls].
      now rewrite <- app_assoc.
Qed.

Lemma firstn_cons_removelast (t : token) (l : list token) :
  l <> [] -> firstn (length l) (t :: l) = t :: removelast l.
Proof.
  intros Hne. destruct (exists_last Hne) as [l' [x ->]].
  rewrite removelast_last, length_app, Nat.add_comm. simpl.
  f_equal. now rewrite firstn_app, firstn_all, Nat.sub_diag, app_nil_r.
Qed.

(** What one draft phase does to the draft request. *)
Lemma draft_phase_holds (K : nat) (st st1 : SpecState) (ctx : list token) :
  1 <= K -> sp_accum_draft_tokens st = [] ->
  draft_phase K st = Ok st1 -> holds (sp_draft_request st) ctx ->
  length (sp_accum_draft_tokens st1) = K
  /\ req_model (sp_draft_request st1) = req_model (sp_draft_request st)
  /\ holds (sp_draft_request st1)
           (ctx ++ sp_first_token st :: removelast (sp_accum_draft_tokens st1))
  /\ (forall i, i < K ->
        exists sts mask,
          map tokens_of sts
          = repeat (ctx ++ sp_first_token st
                           :: firstn i (sp_accum_draft_tokens st1))
                   (n_states (req_model (sp_draft_request st)))
          /\ nth_error (sp_accum_draft_tokens st1) i
             = Some (predict (req_model (sp_draft_request st)) sts mask))
  /\ calls (sp_draft_request st1)
     = calls (sp_draft_request st)
       ++ draft_trace (sp_attention_mask st) (sp_first_token st)
                      (sp_accum_draft_tokens st1) K.
Proof.
  intros HK Hacc Hrun Hholds. unfold draft_phase in Hrun.
  destruct (@draft_loop_holds K _ st1 ctx Hrun Hholds)
    as [new [Hnew [Hlen [Hmodel [Hh [Hpred Hcalls]]]]]].
  cbn [sp_accum_draft_tokens sp_next_token sp_draft_request
       sp_attention_mask] in *.
  rewrite Hacc in Hnew. simpl in Hnew. rewrite Hnew.
  split; [exact Hlen|]. split; [exact Hmodel|]. split; [|split; assumption].
  rewrite <- Hlen, firstn_cons_removelast in Hh; [exact Hh|].
  intros ->. simpl in Hlen. lia.
Qed.

(** The tokens kept by a trim to the new [seq_len]: all tokens returned
    so far but the last. *)
Lemma trimmed_context (all draft verify : list token) (seq_len d : nat)
    (first : token) :
  length all = seq_len + 1 -> nth_error all seq_len = Some first ->
  d < length draft ->
  (forall i, i < d -> nth_error draft i = nth_error verify i) ->
  firstn (seq_len + (d + 1)) (firstn seq_len all ++ first :: removelast draft)
  = firstn (seq_len + (d + 1)) (all ++ firstn (d + 1) verify).
Proof.
  intros Hlen Hfirst Hd Hagree.
  pose proof (@split_last _ _ _ Hlen Hfirst) as Hall.
  assert (Hctx : length (firstn seq_len all) = seq_len).
  { rewrite length_firstn. lia. }
  rewrite <- Hctx at 1. rewrite firstn_app_2.
  replace (seq_len + (d + 1)) with (length all + d) by lia.
  rewrite firstn_app_2, firstn_firstn.
  replace (Nat.min d (d + 1)) with d by lia.
  replace (d + 1) with (S d) by lia. cbn [firstn].
  rewrite firstn_removelast by lia.
  rewrite (@firstn_agree d draft verify Hagree). rewrite Hall at 2.
  now rewrite <- app_assoc.
Qed.

Lemma sp_body_draft_request (K : nat) (st st1 st' : SpecState) :
  draft_phase K st = Ok st1 -> sp_body K st = Ok st' ->
  sp_draft_request st'
  = update_state (sp_draft_request st1) (sp_seq_len st').
Proof.
  intros Hrun. unfold sp_body. rewrite Hrun. cbn [bind].
  destruct (verify_phase K st1) as [st2| |] eqn:Hver; cbn [bind];
    try discriminate.
  apply verify_phase_returns in Hver. subst st2.
  unfold accept_phase.
  destruct (scan_disagree _ _ _ _) as [d|]; [|discriminate].
  destruct (nth_error _ d) as [t|]; [|discriminate].
  cbn [bind]. now intros [= <-].
Qed.

(** One pass keeps both invariants of the loop head. *)
Lemma sp_body_draft_inv (input : Tokenized) (draft_model main_model : Model)
    (K n : nat) (st : SpecState) :
  1 <= K ->
  sp_inv input main_model K n st -> sp_draft_inv input draft_model K n st ->
  exists d st',
    sp_body K st = Ok st'
    /\ sp_inv input main_model K (S n) st'
    /\ sp_draft_inv input draft_model K (S n) st'
    /\ sp_seq_len st' = sp_seq_len st + (d + 1) /\ d < K
    /\ sp_disagree_idx st' = Some d.
Proof.
  intros HK HI [Hdm Hdh Hdb].
  destruct (@sp_body_total K st HK (si_accum HI)) as [draft [d [st' It]]].
  destruct (@sp_body_inv input main_model K HK n st HI)
    as [d' [st'' [Hbody' [HI' [Hseq' Hd']]]]].
  rewrite (it_body It) in Hbody'. injection Hbody' as <-.
  destruct (it_drafted It) as [st1 [Hrun [Hdraft _]]].
  destruct (@draft_phase_holds K st st1 _ HK (si_accum HI) Hrun Hdh)
    as [Hlen [Hmodel [Hh _]]].
  destruct (it_disagree It) as [Hlt [Hbefore _]].
  exists d, st'. split; [apply It|]. split; [exact HI'|].
  split; [|split; [apply It|split; [|apply It]]].
  - constructor.
    + rewrite (it_draft_model It). exact Hdm.
    + rewrite (@sp_body_draft_request K st st1 st' Hrun (it_body It)).
      replace (firstn (sp_seq_len st') (sp_all_tokens st'))
        with (firstn (sp_seq_len st')
                (firstn (sp_seq_len st) (sp_all_tokens st)
                 ++ sp_first_token st :: removelast draft)).
      * rewrite Hdraft in Hh. now apply update_state_holds.
      * rewrite (it_all It), (it_seq_len It).
        apply trimmed_context; [apply HI|apply HI|exact Hlt|exact Hbefore].
    + rewrite (it_seq_len It). rewrite (it_draft_len It) in Hlt.
      simpl. lia.
  - now rewrite (it_draft_len It) in Hlt.
Qed.

Lemma sp_prime_draft_inv (input : Tokenized) (draft_model main_model : Model)
    (K : nat) (st0 : SpecState) :
  sp_prime input draft_model main_model = Ok st0 ->
  sp_draft_inv input draft_model K 0 st0.
Proof.
  intros Hprime.
  pose proof (@sp_prime_returns_nonempty input draft_model main_model st0
                Hprime) as Hne.
  rewrite (@sp_prime_nonempty input draft_model main_model Hne) in Hprime.
  revert Hprime.
  destruct (last_logit _) as [t| |]; cbn [bind]; try discriminate.
  intros [= <-]. constructor; cbn [sp_draft_request sp_seq_len sp_all_tokens].
  - reflexivity.
  - rewrite firstn_app, firstn_all, Nat.sub_diag, app_nil_r.
    apply (@forward_holds (create_infer_request draft_model) _ _ _ []).
    + apply create_infer_request_holds.
    + rewrite length_seq. lia.
  - lia.
Qed.

(** A run as a number of passes from the primed state. *)
Lemma sp_run_iterate (input : Tokenized) (draft_model main_model : Model)
    (K N : nat) :
  1 <= K -> input_ids input <> [] ->
  exists st0 n st,
    sp_prime input draft_model main_model = Ok st0
    /\ sp_iterate n K st0 = Ok st
    /\ sp_run input draft_model main_model K N = Ok st
    /\ sp_inv input main_model K n st
    /\ sp_draft_inv input draft_model K n st
    /\ N <= sp_seq_len st
    /\ n <= N - length (input_ids input)
    /\ (forall m, m < n ->
          exists st_m, sp_iterate m K st0 = Ok st_m /\ sp_seq_len st_m < N).
Proof.
  intros HK Hne.
  destruct (@sp_prime_inv input draft_model main_model K Hne)
    as [st0 [Hprime HI0]].
  pose proof (@sp_prime_draft_inv input draft_model main_model K st0 Hprime)
    as HD0.
  destruct (@sp_while_rule K N
              (fun n s => sp_inv input main_model K n s
                          /\ sp_draft_inv input draft_model K n s))
    with (fuel := N - sp_seq_len st0) (n0 := 0) (st := st0)
    as [n [st [Hw [Hit [[HI HD] [HN [Hn Hmid]]]]]]]; auto.
  { intros m s [Hs Hs'] _.
    destruct (@sp_body_draft_inv input draft_model main_model K m s HK Hs Hs')
      as [d [s' [Hbody [H1 [H2 [Hseq _]]]]]].
    exists s'. split; [exact Hbody|]. split; [lia|]. split; assumption. }
  destruct (sp_prime_shape _ _ _ Hprime) as [Hlen _]. rewrite Hlen in Hn.
  exists st0, n, st. split; [exact Hprime|]. split; [exact Hit|].
  split; [|auto].
  unfold sp_run. rewrite Hprime. exact Hw.
Qed.

(** ** What the caches hold when the routines return *)

Lemma firstn_all_but_last (l : list token) (n : nat) :
  length l = n + 1 -> firstn n l = removelast l.
Proof.
  intros H. rewrite removelast_firstn_len. f_equal. lia.
Qed.

(** X7.  When either routine returns on a non-empty prompt, every cache
    state of every request it used holds the positions of exactly the
    returned tokens but the last, in order: the positions of rejected
    draft tokens are gone from both the draft and the main cache, and
    those of accepted tokens are all there. *)
Theorem caches_hold_all_but_last (input : Tokenized)
    (draft_model main_model : Model) (K N : nat) :
  1 <= K -> input_ids input <> [] ->
  (exists st,
     sp_run input draft_model main_model K N = Ok st
     /\ speculative_sampling_with_pkv input draft_model main_model K N
        = Ok (sp_all_tokens st)
     /\ map tokens_of (query_state (sp_draft_request st))
        = repeat (removelast (sp_all_tokens st)) (n_states draft_model)
     /\ map tokens_of (query_state (sp_main_request st))
        = repeat (removelast (sp_all_tokens st)) (n_states main_model))
  /\ (exists sa,
        ar_run input main_model N = Ok sa
        /\ map tokens_of (query_state (ar_request sa))
           = repeat (removelast (ar_all_tokens sa)) (n_states main_model)).
Proof.
  intros HK Hne. split.
  - destruct (@sp_run_iterate input draft_model main_model K N HK Hne)
      as [st0 [n [st [_ [_ [Hrun [HI [HD _]]]]]]]].
    exists st. split; [exact Hrun|]. split.
    { unfold speculative_sampling_with_pkv. rewrite Hrun. cbn [bind].
      now rewrite (si_accum HI), app_nil_r. }
    pose proof (sd_holds HD) as H1. pose proof (si_holds HI) as H2.
    unfold holds in H1, H2.
    rewrite (sd_model HD), (@firstn_all_but_last _ _ (si_len HI)) in H1.
    rewrite (si_model HI), (@firstn_all_but_last _ _ (si_len HI)) in H2.
    auto.
  - destruct (@ar_run_total input main_model N Hne) as [sa [Hrun HA]].
    exists sa. split; [exact Hrun|].
    pose proof (ai_holds HA) as H. unfold holds in H.
    now rewrite (ai_model HA), (@firstn_all_but_last _ _ (ai_len HA)) in H.
Qed.

(** ** How many passes a run takes *)

(** X8.  A speculative run on a non-empty prompt takes between
    [(N - prompt_len) / K] rounded up and [N - prompt_len] passes: the
    number [n] of batched calls of the main model satisfies
    [N - prompt_len <= n * K] and [n <= N - prompt_len]. *)
Theorem passes_bounds (input : Tokenized) (draft_model main_model : Model)
    (K N : nat) :
  1 <= K -> input_ids input <> [] ->
  exists st n,
    sp_run input draft_model main_model K N = Ok st
    /\ length (calls (sp_main_request st)) = 1 + n
    /\ N - length (input_ids input) <= n * K
    /\ n <= N - length (input_ids input).
Proof.
  intros HK Hne.
  destruct (@sp_run_iterate input draft_model main_model K N HK Hne)
    as [st0 [n [st [_ [_ [Hrun [HI [HD [HN [Hn _]]]]]]]]]].
  exists st, n. split; [exact Hrun|]. split; [apply HI|].
  split; [|exact Hn]. pose proof (sd_bound HD). lia.
Qed.

(** With one token-determined model as draft and main model, the draft
    tokens of a pass are the main model's results, so the comparison
    loop runs to its last index. *)
Lemma same_model_pass (input : Tokenized) (m : Model) (K n : nat)
    (st : SpecState) (draft : list token) (d : nat) (st' : SpecState) :
  1 <= K -> token_determined m ->
  sp_inv input m K n st -> sp_draft_inv input m K n st ->
  iteration K st draft d st' ->
  d = K - 1.
Proof.
  intros HK Hdet HI HD It.
  destruct (it_drafted It) as [st1 [Hrun [Hdraft _]]].
  destruct (@draft_phase_holds K st st1 _ HK (si_accum HI) Hrun (sd_holds HD))
    as [Hlen [_ [_ [Hpred _]]]].
  rewrite Hdraft, (sd_model HD) in Hpred.
  assert (Hids : length (sp_first_token st :: removelast draft) = K).
  { cbn [length]. rewrite removelast_length, (it_draft_len It). lia. }
  assert (Hsame : draft = results (verified K st draft)).
  { apply nth_error_ext. intros i.
    destruct (Nat.lt_ge_cases i K) as [Hi|Hi].
    - destruct (Hpred i Hi) as [sts [mask [Hsts ->]]].
      destruct (@forward_results_holds (sp_main_request st)
                  (sp_first_token st :: removelast draft)
                  (repeat 1%Z (sp_seq_len st + K)) (seq (sp_seq_len st) K)
                  _ i (si_holds HI)) as [sts' [Hres Hsts']].
      { rewrite Hids, length_seq. lia. }
      { rewrite Hids. lia. }
      unfold verified. rewrite Hres, (si_model HI). f_equal.
      apply Hdet. rewrite Hsts, Hsts', (si_model HI). f_equal. f_equal.
      cbn [firstn]. f_equal. symmetry. apply firstn_removelast.
      rewrite (it_draft_len It). exact Hi.
    - transitivity (@None token); [|symmetry]; apply nth_error_None.
      + rewrite (it_draft_len It). lia.
      + rewrite (it_verify_len It). lia. }
  destruct (it_disagree It) as [_ [_ [Hat|[Hd _]]]].
  - elim Hat. now rewrite <- Hsame.
  - now rewrite (it_draft_len It) in Hd.
Qed.

(** X9.  When the draft model is the main model and its choice is
    determined by the token ids it has seen, every pass accepts all [K]
    draft tokens: a run of [n] passes ends with
    [seq_len = prompt_len + n * K], and [n] is [(N - prompt_len) / K]
    rounded up, the least number of passes any run can take. *)
Theorem identical_draft_accepts_all (input : Tokenized) (m : Model) (K N : nat) :
  1 <= K -> input_ids input <> [] -> token_determined m ->
  exists st n,
    sp_run input m m K N = Ok st
    /\ length (calls (sp_main_request st)) = 1 + n
    /\ sp_seq_len st = length (input_ids input) + n * K
    /\ length (sp_all_tokens st) = length (input_ids input) + n * K + 1
    /\ N - length (input_ids input) <= n * K
    /\ (1 <= n -> length (input_ids input) + (n - 1) * K < N).
Proof.
  intros HK Hne Hdet.
  destruct (@sp_prime_inv input m m K Hne) as [st0 [Hprime HI0]].
  pose proof (@sp_prime_draft_inv input m m K st0 Hprime) as HD0.
  destruct (sp_prime_shape _ _ _ Hprime) as [Hlen _].
  destruct (@sp_while_rule K N
              (fun n s => sp_inv input m K n s /\ sp_draft_inv input m K n s
                          /\ sp_seq_len s = length (input_ids input) + n * K
                          /\ (1 <= n ->
                              length (input_ids input) + (n - 1) * K < N)))
    with (fuel := N - sp_seq_len st0) (n0 := 0) (st := st0)
    as [n [st [Hw [_ [[HI [HD [Hseq Hprev]]] [HN _]]]]]]; auto.
  { intros k s [Hs [Hs' [Hseq Hprev]]] Hlt.
    destruct (@sp_body_draft_inv input m m K k s HK Hs Hs')
      as [d [s' [Hbody [H1 [H2 [Hseq' [Hd Hidx]]]]]]].
    destruct (@sp_body_total K s HK (si_accum Hs)) as [draft [d' [s'' It]]].
    rewrite (it_body It) in Hbody. injection Hbody as ->.
    rewrite (it_idx It) in Hidx. injection Hidx as ->.
    pose proof (@same_model_pass input m K k s draft d s' HK Hdet Hs Hs' It) as Hfull.
    exists s'. split; [apply It|]. split; [lia|].
    split; [exact H1|]. split; [exact H2|]. split.
    - rewrite Hseq', Hseq, Hfull. simpl. lia.
    - intros _. replace (S k - 1) with k by lia. lia. }
  { split; [exact HI0|]. split; [exact HD0|]. split; [lia|]. intros H; lia. }
  simpl in HI, HD, Hseq, Hprev.
  exists st, n. split; [unfold sp_run; rewrite Hprime; exact Hw|].
  split; [apply HI|]. split; [exact Hseq|].
  split; [rewrite (si_len HI); lia|]. split; [lia|exact Hprev].
Qed.

(** ** Raising the budget *)

Lemma sp_body_appends (K : nat) (st st' : SpecState) :
  sp_body K st = Ok st' ->
  exists new, sp_all_tokens st' = sp_all_tokens st ++ new.
Proof.
  unfold sp_body.
  destruct (draft_phase_total K st) as [st1 [Hrun Hext]].
  rewrite Hrun. cbn [bind].
  destruct (verify_phase K st1) as [st2| |] eqn:Hver; cbn [bind];
    try discriminate.
  apply verify_phase_returns in Hver. subst st2.
  unfold accept_phase.
  destruct (scan_disagree _ _ _ _) as [d|]; [|discriminate].
  destruct (nth_error _ d) as [t|]; [|discriminate].
  cbn [bind]. intros [= <-].
  cbn [trim_phase accept verified_state sp_all_tokens].
  rewrite (de_all Hext). eexists. reflexivity.
Qed.

Lemma sp_iterate_appends (K n : nat) :
  forall st st', sp_iterate n K st = Ok st' ->
  exists new, sp_all_tokens st' = sp_all_tokens st ++ new.
Proof.
  induction n as [|n IH]; intros st st' H.
  - injection H as <-. exists []. now rewrite app_nil_r.
  - cbn [sp_iterate] in H.
    destruct (sp_body K st) as [st1| |] eqn:Hbody; cbn [bind] in H;
      try discriminate.
    destruct (sp_body_appends _ _ Hbody) as [new1 H1].
    destruct (IH _ _ H) as [new2 H2].
    exists (new1 ++ new2). now rewrite H2, H1, app_assoc.
Qed.

Lemma sp_iterate_app (K a b : nat) :
  forall st,
  sp_iterate (a + b) K st = (s <- sp_iterate a K st ;; sp_iterate b K s).
Proof.
  induction a as [|a IH]; intros st; [reflexivity|].
  cbn [Nat.add sp_iterate].
  destruct (sp_body K st) as [st1| |]; cbn [bind]; auto.
Qed.

Lemma initial_segment_app (l new : list token) : initial_segment l (l ++ new).
Proof.
  unfold initial_segment.
  now rewrite firstn_app, Nat.sub_diag, firstn_all, app_nil_r.
Qed.

(** X10.  Raising the budget of the speculative routine from [N] to
    [N'] only appends tokens: with the same prompt, models and [K], the
    result for [N] is an initial segment of the result for [N']. *)
Theorem speculative_budget_monotone (input : Tokenized)
    (draft_model main_model : Model) (K N N' : nat) :
  1 <= K -> input_ids input <> [] -> N <= N' ->
  exists l l',
    speculative_sampling_with_pkv input draft_model main_model K N = Ok l
    /\ speculative_sampling_with_pkv input draft_model main_model K N' = Ok l'
    /\ initial_segment l l'.
Proof.
  intros HK Hne HN.
  destruct (@sp_run_iterate input draft_model main_model K N HK Hne)
    as [st0 [n [st [Hprime [Hit [Hrun [HI [_ [Hge [_ Hmid]]]]]]]]]].
  destruct (@sp_run_iterate input draft_model main_model K N' HK Hne)
    as [st0' [n' [st' [Hprime' [Hit' [Hrun' [HI' [_ [Hge' _]]]]]]]]].
  rewrite Hprime in Hprime'. injection Hprime' as <-.
  exists (sp_all_tokens st), (sp_all_tokens st').
  unfold speculative_sampling_with_pkv. rewrite Hrun, Hrun'. cbn [bind].
  rewrite (si_accum HI), (si_accum HI'), !app_nil_r.
  split; [reflexivity|]. split; [reflexivity|].
  assert (Hle : n <= n').
  { destruct (Nat.le_gt_cases n n') as [H|H]; [exact H|].
    destruct (Hmid n' H) as [st_m [Hm Hlt]].
    rewrite Hit' in Hm. injection Hm as <-. lia. }
  replace n' with (n + (n' - n)) in Hit' by lia.
  rewrite sp_iterate_app, Hit in Hit'. cbn [bind] in Hit'.
  destruct (sp_iterate_appends _ _ _ Hit') as [new ->].
  apply initial_segment_app.
Qed.

Lemma ar_body_step (st : ARState) :
  exists t,
    ar_body st
    = Ok {| ar_attention_mask := ar_attention_mask st ++ [1%Z];
            ar_seq_len := ar_seq_len st + 1;
            ar_request :=
              forward (ar_request st) [ar_next_token st]
                    (ar_attention_mask st ++ [1%Z])
                    [length (ar_attention_mask st ++ [1%Z])];
            ar_next_token := t;
            ar_all_tokens := ar_all_tokens st ++ [t] |}.
Proof. eexists. reflexivity. Qed.

Lemma ar_while_iterate (N fuel : nat) :
  forall st, N - ar_seq_len st <= fuel ->
  ar_while fuel N st = ar_iterate (N - ar_seq_len st) st.
Proof.
  induction fuel as [|fuel IH]; intros st Hfuel; cbn [ar_while];
    destruct (Nat.ltb_spec (ar_seq_len st) N) as [E|E]; try lia.
  - now replace (N - ar_seq_len st) with 0 by lia.
  - replace (N - ar_seq_len st) with (S (N - (ar_seq_len st + 1))) by lia.
    cbn [ar_iterate]. destruct (ar_body_step st) as [t ->]. cbn [bind].
    rewrite IH; [reflexivity|cbn [ar_seq_len]; lia].
  - now replace (N - ar_seq_len st) with 0 by lia.
Qed.

Lemma ar_iterate_app (a b : nat) :
  forall st,
  ar_iterate (a + b) st = (s <- ar_iterate a st ;; ar_iterate b s).
Proof.
  induction a as [|a IH]; intros st; [reflexivity|].
  cbn [Nat.add ar_iterate].
  destruct (ar_body st) as [st1| |]; cbn [bind]; auto.
Qed.

Lemma ar_iterate_appends (n : nat) :
  forall st, exists st' new,
    ar_iterate n st = Ok st' /\ length new = n
    /\ ar_all_tokens st' = ar_all_tokens st ++ new.
Proof.
  induction n as [|n IH]; intros st.
  - exists st, []. now rewrite app_nil_r.
  - cbn [ar_iterate]. destruct (ar_body_step st) as [t ->]. cbn [bind].
    match goal with |- context [ar_iterate n ?s] =>
      destruct (IH s) as [st' [new [Hit [Hlen Hall]]]] end.
    exists st', (t :: new). split; [exact Hit|]. split; [simpl; lia|].
    rewrite Hall. cbn [ar_all_tokens]. now rewrite <- app_assoc.
Qed.

(** X11.  Raising the budget of the autoregressive routine from [N] to
    [N'] only appends tokens: the result for [N] is an initial segment of
    the result for [N'], and the results have [max N prompt_len + 1] and
    [max N' prompt_len + 1] tokens. *)
Theorem autoregressive_budget_monotone (input : Tokenized) (model : Model)
    (N N' : nat) :
  input_ids input <> [] -> N <= N' ->
  exists l l',
    autoregressive_sampling_with_pkv input model N = Ok l
    /\ autoregressive_sampling_with_pkv input model N' = Ok l'
    /\ initial_segment l l'
    /\ length l = Nat.max N (length (input_ids input)) + 1
    /\ length l' = Nat.max N' (length (input_ids input)) + 1.
Proof.
  intros Hne HN.
  destruct (@forward_prompt model input Hne) as [t [sts [Hlast _]]].
  unfold autoregressive_sampling_with_pkv, ar_run.
  rewrite (@ar_prime_nonempty input model Hne).
  rewrite Hlast. cbn [bind ar_seq_len].
  set (st0 := {| ar_attention_mask := attention_mask input;
                 ar_seq_len := length (input_ids input);
                 ar_request := _; ar_next_token := t;
                 ar_all_tokens := input_ids input ++ [t] |}).
  rewrite !ar_while_iterate by (unfold st0; cbn [ar_seq_len]; lia).
  change (ar_seq_len st0) with (length (input_ids input)).
  set (p := length (input_ids input)).
  replace (N' - p) with ((N - p) + ((N' - p) - (N - p))) by lia.
  rewrite ar_iterate_app.
  destruct (ar_iterate_appends (N - p) st0) as [st [new [Hit [Hlen Hall]]]].
  rewrite Hit. cbn [bind].
  destruct (ar_iterate_appends ((N' - p) - (N - p)) st)
    as [st' [new' [Hit' [Hlen' Hall']]]].
  rewrite Hit'. cbn [bind].
  exists (ar_all_tokens st), (ar_all_tokens st').
  split; [reflexivity|]. split; [reflexivity|].
  split; [rewrite Hall'; apply initial_segment_app|].
  rewrite Hall', Hall. unfold st0. cbn [ar_all_tokens].
  rewrite !length_app, Hlen, Hlen'. fold p. simpl. lia.
Qed.

(** ** What the routines feed to the models *)

Lemma repeat_snoc (n : nat) : repeat 1%Z (n + 1) = repeat 1%Z n ++ [1%Z].
Proof. now rewrite repeat_app. Qed.

Lemma ar_prime_trace (input : Tokenized) (model : Model) (st0 : ARState) :
  ar_prime input model = Ok st0 -> ar_trace_inv input 0 st0.
Proof.
  intros Hprime.
  pose proof (@ar_prime_returns_nonempty input model st0 Hprime) as Hne.
  rewrite (@ar_prime_nonempty input model Hne) in Hprime. revert Hprime.
  destruct (last_logit _) as [t| |]; cbn [bind]; try discriminate.
  intros [= <-].
  constructor;
    cbn [ar_all_tokens ar_seq_len ar_next_token ar_attention_mask ar_request].
  - rewrite length_app. simpl. lia.
  - lia.
  - rewrite Nat.add_0_r, nth_error_app2, Nat.sub_diag by lia. reflexivity.
  - simpl. now rewrite app_nil_r.
  - reflexivity.
Qed.

Lemma ar_body_trace (input : Tokenized) (n : nat) (st : ARState) :
  ar_trace_inv input n st ->
  exists st', ar_body st = Ok st' /\ ar_trace_inv input (S n) st'.
Proof.
  intros [Hlen Hseq Hnext Hmask Hcalls].
  destruct (ar_body_step st) as [t ->]. eexists. split; [reflexivity|].
  set (p := length (input_ids input)) in *.
  constructor;
    cbn [ar_all_tokens ar_seq_len ar_next_token ar_attention_mask ar_request].
  - rewrite length_app. fold p. simpl. lia.
  - fold p. lia.
  - fold p. rewrite nth_error_app2 by lia.
    replace (p + S n - length (ar_all_tokens st)) with 0 by lia. reflexivity.
  - rewrite Hmask, <- app_assoc, <- repeat_snoc. f_equal. f_equal. lia.
  - cbn [forward calls]. rewrite Hcalls. unfold ar_trace. fold p.
    rewrite seq_S, map_app. cbn [map Nat.add app]. f_equal.
    f_equal.
    + apply map_ext_in. intros j Hj. apply in_seq in Hj.
      f_equal. f_equal. symmetry. apply app_nth1. lia.
    + rewrite app_nth1 by lia.
      erewrite nth_error_nth by exact Hnext.
      rewrite Hmask, <- app_assoc, <- repeat_snoc, length_app, repeat_length.
      now rewrite Nat.add_assoc.
Qed.

Lemma ar_iterate_trace (input : Tokenized) (n : nat) :
  forall k st, ar_trace_inv input k st ->
  exists st', ar_iterate n st = Ok st' /\ ar_trace_inv input (k + n) st'.
Proof.
  induction n as [|n IH]; intros k st HI.
  - exists st. rewrite Nat.add_0_r. auto.
  - cbn [ar_iterate]. destruct (ar_body_trace HI) as [st1 [-> HI1]].
    cbn [bind]. destruct (IH (S k) st1 HI1) as [st' [Hit HI']].
    exists st'. split; [exact Hit|].
    now replace (k + S n) with (S k + n) by lia.
Qed.

(** X12.  The calls the autoregressive routine issues on a non-empty
    prompt are: the whole prompt at positions [0 .. prompt_len - 1], then
    one call per generated token but the last, each feeding that token
    alone under the input mask extended by one more [1], with the length
    of that mask as position id.  So call [j] of the loop gets position
    id [mask_len + j + 1], and no call of the loop gets [mask_len]. *)
Theorem autoregressive_calls (input : Tokenized) (model : Model) (N : nat) :
  input_ids input <> [] ->
  exists st,
    ar_run input model N = Ok st
    /\ autoregressive_sampling_with_pkv input model N = Ok (ar_all_tokens st)
    /\ calls (ar_request st)
       = ar_trace input (ar_all_tokens st) (N - length (input_ids input))
    /\ Forall (fun c => c_position_ids c <> [length (attention_mask input)])
              (tl (calls (ar_request st))).
Proof.
  intros Hne.
  destruct (@forward_prompt model input Hne) as [t [sts [Hlast _]]].
  assert (Hprime : exists st0, ar_prime input model = Ok st0).
  { rewrite (@ar_prime_nonempty input model Hne), Hlast.
    eexists. reflexivity. }
  destruct Hprime as [st0 Hprime].
  pose proof (ar_prime_trace _ _ Hprime) as HI0.
  destruct (@ar_iterate_trace input (N - length (input_ids input)) 0 st0 HI0)
    as [st [Hit HI]].
  assert (Hrun : ar_run input model N = Ok st).
  { unfold ar_run. rewrite Hprime. cbn [bind].
    rewrite ar_while_iterate by lia. now rewrite (at_seq HI0), Nat.add_0_r. }
  exists st. split; [exact Hrun|]. split.
  { unfold autoregressive_sampling_with_pkv. now rewrite Hrun. }
  simpl in HI. split; [apply HI|].
  rewrite (at_calls HI). unfold ar_trace. cbn [tl].
  rewrite Forall_map. apply Forall_forall. intros j _. simpl.
  intros E. injection E as E. lia.
Qed.

Lemma firstn_snoc_nth (l : list token) (k : nat) :
  k < length l -> firstn (S k) l = firstn k l ++ [nth k l 0%Z].
Proof.
  revert l. induction k as [|k IH]; intros [|y l] H; simpl in *; try lia.
  - reflexivity.
  - f_equal. apply IH. lia.
Qed.

Lemma concat_nth_seq (l : list token) (k : nat) :
  k <= length l ->
  concat (map (fun i => [nth i l 0%Z]) (seq 0 k)) = firstn k l.
Proof.
  induction k as [|k IH]; intros Hk; [reflexivity|].
  rewrite seq_S, map_app, concat_app, IH by lia.
  cbn [Nat.add map concat]. rewrite app_nil_r.
  symmetry. apply firstn_snoc_nth. lia.
Qed.

Lemma concat_positions_seq (a k : nat) :
  concat (map (fun i => [a + i + 1]) (seq 0 k)) = seq (a + 1) k.
Proof.
  induction k as [|k IH]; [reflexivity|].
  rewrite seq_S, map_app, concat_app, IH.
  cbn [Nat.add map concat]. rewrite app_nil_r, (seq_S k).
  f_equal. f_equal. lia.
Qed.

Lemma draft_loop_trace (k : nat) :
  forall st, exists st' new,
    draft_loop k st = Ok st'
    /\ sp_accum_draft_tokens st' = sp_accum_draft_tokens st ++ new
    /\ length new = k
    /\ calls (sp_draft_request st')
       = calls (sp_draft_request st)
         ++ draft_trace (sp_attention_mask st) (sp_next_token st) new k.
Proof.
  induction k as [|k IH]; intros st.
  - exists st, []. rewrite !app_nil_r. auto.
  - cbn [draft_loop]. rewrite infer_one_token. cbn [bind].
    rewrite forward_single_logit. cbn [bind].
    match goal with |- context [draft_loop k ?s] =>
      destruct (IH s) as [st' [new [Hrun [Hacc [Hlen Hcalls]]]]] end.
    cbn [sp_accum_draft_tokens sp_next_token sp_draft_request
         sp_attention_mask] in *.
    eexists st', (_ :: new). split; [exact Hrun|].
    split; [now rewrite Hacc, <- app_assoc|].
    split; [simpl; now rewrite Hlen|].
    rewrite Hcalls, draft_trace_succ. cbn [forward calls].
    now rewrite <- app_assoc.
Qed.

(** X13.  In a pass that starts with a mask as long as [seq_len] (as
    every pass after the first does), the draft model and the main model
    are fed the same [K] tokens, the last accepted token followed by all
    draft tokens but the last: the draft model one per call, at position
    ids [seq_len + 1 .. seq_len + K], the main model in one call that
    returns, at position ids [seq_len .. seq_len + K - 1]. *)
Theorem draft_positions_shifted (K : nat) (st : SpecState) :
  1 <= K -> sp_accum_draft_tokens st = [] ->
  length (sp_attention_mask st) = sp_seq_len st ->
  exists st1 st2 draft_calls main_call,
    draft_phase K st = Ok st1
    /\ verify_phase K st1 = Ok st2
    /\ calls (sp_draft_request st1) = calls (sp_draft_request st) ++ draft_calls
    /\ length draft_calls = K
    /\ Forall (fun c => length (c_input_ids c) = 1) draft_calls
    /\ concat (map c_input_ids draft_calls)
       = sp_first_token st :: removelast (sp_accum_draft_tokens st1)
    /\ concat (map c_position_ids draft_calls) = seq (sp_seq_len st + 1) K
    /\ calls (sp_main_request st2)
       = calls (sp_main_request st) ++ [main_call]
    /\ c_input_ids main_call
       = sp_first_token st :: removelast (sp_accum_draft_tokens st1)
    /\ c_position_ids main_call = seq (sp_seq_len st) K.
Proof.
  intros HK Hacc Hmask.
  destruct (draft_phase_total K st) as [st1 [Hrun Hext]].
  pose proof Hrun as Hrun'. unfold draft_phase in Hrun'.
  match type of Hrun' with draft_loop K ?s = _ =>
    destruct (draft_loop_trace K s) as [st1' [new [Hrun2 [Hnew [Hlen Hcalls]]]]]
  end.
  rewrite Hrun' in Hrun2. injection Hrun2 as <-.
  cbn [sp_accum_draft_tokens sp_next_token sp_draft_request
       sp_attention_mask] in *.
  rewrite Hacc in Hnew. simpl in Hnew.
  assert (Hne : new <> []) by (intros ->; simpl in Hlen; lia).
  assert (Hver : verify_phase K st1 = Ok (verified_state K st1)).
  { apply verify_phase_ok. rewrite Hnew. cbn [length].
    pose proof (@app_removelast_last _ new 0%Z Hne) as E.
    apply (f_equal (@length token)) in E. rewrite length_app in E.
    simpl in E. lia. }
  eexists st1, (verified_state K st1), _, _.
  split; [exact Hrun|]. split; [exact Hver|]. split; [exact Hcalls|].
  rewrite Hnew.
  split; [unfold draft_trace; now rewrite length_map, length_seq|].
  split.
  { unfold draft_trace. rewrite Forall_map. apply Forall_forall.
    intros i _. reflexivity. }
  split.
  { unfold draft_trace. rewrite map_map. cbn [c_input_ids].
    rewrite concat_nth_seq by (simpl; lia).
    rewrite <- Hlen. apply firstn_cons_removelast.
    intros ->. simpl in Hlen. lia. }
  split.
  { unfold draft_trace. rewrite map_map. cbn [c_position_ids].
    rewrite Hmask. apply concat_positions_seq. }
  cbn [verified_state sp_main_request forward calls].
  rewrite (de_main Hext), (de_first Hext), (de_seq_len Hext), Hnew.
  split; [reflexivity|]. split; reflexivity.
Qed.

(** Every pass ends with the mask rebuilt as [seq_len] ones, so the next
    pass starts with a mask as long as [seq_len]. *)
Lemma mask_rebuilt_after_pass (K : nat) (st st' : SpecState) :
  sp_body K st = Ok st' ->
  sp_attention_mask st' = repeat 1%Z (sp_seq_len st')
  /\ length (sp_attention_mask st') = sp_seq_len st'.
Proof.
  unfold sp_body.
  destruct (draft_phase K st) as [st1| |]; cbn [bind]; try discriminate.
  destruct (verify_phase K st1) as [st2| |]; cbn [bind]; try discriminate.
  destruct (accept_phase st2) as [st3| |]; cbn [bind]; try discriminate.
  intros [= <-]. cbn [trim_phase sp_attention_mask sp_seq_len].
  split; [reflexivity|apply repeat_length].
Qed.

(** ** The further properties at concrete inputs *)



Lemma lockstep_equals_autoregressive_witness :
  input_ids prompt1 <> [] /\ token_determined counting_model
  /\ exists l,
       autoregressive_sampling_with_pkv prompt1 counting_model 4 = Ok l
       /\ speculative_sampling_with_pkv prompt1 (constant_model 9%Z)
            counting_model 1 4 = Ok l.
Proof.
  assert (H1 : input_ids prompt1 <> []) by (simpl; discriminate).
  split; [exact H1|]. split; [exact counting_model_token_determined|].
  exact (@lockstep_equals_autoregressive prompt1 (constant_model 9%Z)
           counting_model 4 H1 counting_model_token_determined).
Defined.

Lemma draft_changes_length_only_witness :
  1 <= 2 /\ 1 <= 3 /\ input_ids prompt1 <> []
  /\ token_determined counting_model
  /\ exists l1 l2,
       speculative_sampling_with_pkv prompt1 (constant_model 9%Z)
         counting_model 2 4 = Ok l1
       /\ speculative_sampling_with_pkv prompt1 counting_model
            counting_model 3 4 = Ok l2
       /\ (initial_segment l1 l2 \/ initial_segment l2 l1).
Proof.
  assert (H1 : 1 <= 2) by lia.
  assert (H2 : 1 <= 3) by lia.
  assert (H3 : input_ids prompt1 <> []) by (simpl; discriminate).
  split; [exact H1|]. split; [exact H2|]. split; [exact H3|].
  split; [exact counting_model_token_determined|].
  exact (@draft_changes_length_only prompt1 (constant_model 9%Z) counting_model
           counting_model 2 3 4 H1 H2 H3 counting_model_token_determined).
Defined.

Lemma caches_hold_all_but_last_witness :
  1 <= 2 /\ input_ids prompt1 <> []
  /\ (exists st,
        sp_run prompt1 (constant_model 3%Z) counting_model 2 4 = Ok st
        /\ speculative_sampling_with_pkv prompt1 (constant_model 3%Z)
             counting_model 2 4 = Ok (sp_all_tokens st)
        /\ map tokens_of (query_state (sp_draft_request st))
           = repeat (removelast (sp_all_tokens st))
                    (n_states (constant_model 3%Z))
        /\ map tokens_of (query_state (sp_main_request st))
           = repeat (removelast (sp_all_tokens st)) (n_states counting_model))
  /\ (exists sa,
        ar_run prompt1 counting_model 4 = Ok sa
        /\ map tokens_of (query_state (ar_request sa))
           = repeat (removelast (ar_all_tokens sa)) (n_states counting_model)).
Proof.
  assert (H1 : 1 <= 2) by lia.
  assert (H2 : input_ids prompt1 <> []) by (simpl; discriminate).
  split; [exact H1|]. split; [exact H2|].
  exact (@caches_hold_all_but_last prompt1 (constant_model 3%Z) counting_model
           2 4 H1 H2).
Defined.

Lemma passes_bounds_witness :
  1 <= 2 /\ input_ids prompt1 <> []
  /\ exists st n,
       sp_run prompt1 (constant_model 3%Z) counting_model 2 4 = Ok st
       /\ length (calls (sp_main_request st)) = 1 + n
       /\ 4 - length (input_ids prompt1) <= n * 2
       /\ n <= 4 - length (input_ids prompt1).
Proof.
  assert (H1 : 1 <= 2) by lia.
  assert (H2 : input_ids prompt1 <> []) by (simpl; discriminate).
  split; [exact H1|]. split; [exact H2|].
  exact (@passes_bounds prompt1 (constant_model 3%Z) counting_model 2 4 H1 H2).
Defined.

Lemma identical_draft_accepts_all_witness :
  1 <= 2 /\ input_ids prompt1 <> [] /\ token_determined counting_model
  /\ exists st n,
       sp_run prompt1 counting_model counting_model 2 4 = Ok st
       /\ length (calls (sp_main_request st)) = 1 + n
       /\ sp_seq_len st = length (input_ids prompt1) + n * 2
       /\ length (sp_all_tokens st) = length (input_ids prompt1) + n * 2 + 1
       /\ 4 - length (input_ids prompt1) <= n * 2
       /\ (1 <= n -> length (input_ids prompt1) + (n - 1) * 2 < 4).
Proof.
  assert (H1 : 1 <= 2) by lia.
  assert (H2 : input_ids prompt1 <> []) by (simpl; discriminate).
  split; [exact H1|]. split; [exact H2|].
  split; [exact counting_model_token_determined|].
  exact (@identical_draft_accepts_all prompt1 counting_model 2 4 H1 H2
           counting_model_token_determined).
Defined.

Lemma speculative_budget_monotone_witness :
  1 <= 2 /\ input_ids prompt1 <> [] /\ 2 <= 5
  /\ exists l l',
       speculative_sampling_with_pkv prompt1 (constant_model 3%Z)
         counting_model 2 2 = Ok l
       /\ speculative_sampling_with_pkv prompt1 (constant_model 3%Z)
            counting_model 2 5 = Ok l'
       /\ initial_segment l l'.
Proof.
  assert (H1 : 1 <= 2) by lia.
  assert (H2 : input_ids prompt1 <> []) by (simpl; discriminate).
  assert (H3 : 2 <= 5) by lia.
  split; [exact H1|]. split; [exact H2|]. split; [exact H3|].
  exact (@speculative_budget_monotone prompt1 (constant_model 3%Z)
           counting_model 2 2 5 H1 H2 H3).
Defined.

Lemma autoregressive_budget_monotone_witness :
  input_ids prompt1 <> [] /\ 2 <= 5
  /\ exists l l',
       autoregressive_sampling_with_pkv prompt1 counting_model 2 = Ok l
       /\ autoregressive_sampling_with_pkv prompt1 counting_model 5 = Ok l'
       /\ initial_segment l l'
       /\ length l = Nat.max 2 (length (input_ids prompt1)) + 1
       /\ length l' = Nat.max 5 (length (input_ids prompt1)) + 1.
Proof.
  assert (H1 : input_ids prompt1 <> []) by (simpl; discriminate).
  assert (H2 : 2 <= 5) by lia.
  split; [exact H1|]. split; [exact H2|].
  exact (@autoregressive_budget_monotone prompt1 counting_model 2 5 H1 H2).
Defined.

Lemma autoregressive_calls_witness :
  input_ids prompt1 <> []
  /\ exists st,
       ar_run prompt1 counting_model 3 = Ok st
       /\ autoregressive_sampling_with_pkv prompt1 counting_model 3
          = Ok (ar_all_tokens st)
       /\ calls (ar_request st)
          = ar_trace prompt1 (ar_all_tokens st)
                     (3 - length (input_ids prompt1))
       /\ Forall (fun c => c_position_ids c
                           <> [length (attention_mask prompt1)])
                 (tl (calls (ar_request st))).
Proof.
  assert (H1 : input_ids prompt1 <> []) by (simpl; discriminate).
  split; [exact H1|].
  exact (@autoregressive_calls prompt1 counting_model 3 H1).
Defined.

Lemma draft_positions_shifted_witness :
  1 <= 2 /\ sp_accum_draft_tokens head_example = []
  /\ length (sp_attention_mask head_example) = sp_seq_len head_example
  /\ exists st1 st2 draft_calls main_call,
       draft_phase 2 head_example = Ok st1
       /\ verify_phase 2 st1 = Ok st2
       /\ calls (sp_draft_request st1)
          = calls (sp_draft_request head_example) ++ draft_calls
       /\ length draft_calls = 2
       /\ Forall (fun c => length (c_input_ids c) = 1) draft_calls
       /\ concat (map c_input_ids draft_calls)
          = sp_first_token head_example
            :: removelast (sp_accum_draft_tokens st1)
       /\ concat (map c_position_ids draft_calls)
          = seq (sp_seq_len head_example + 1) 2
       /\ calls (sp_main_request st2)
          = calls (sp_main_request head_example) ++ [main_call]
       /\ c_input_ids main_call
          = sp_first_token head_example
            :: removelast (sp_accum_draft_tokens st1)
       /\ c_position_ids main_call = seq (sp_seq_len head_example) 2.
Proof.
  assert (H1 : 1 <= 2) by lia.
  split; [exact H1|]. split; [reflexivity|]. split; [reflexivity|].
  exact (@draft_positions_shifted 2 head_example H1 eq_refl eq_refl).
Defined.

(** ** The autoregressive routine against naive greedy decoding *)

(** X14.  For a model whose choice is determined by the token ids it has
    seen, the autoregressive routine returns the naive greedy decoding
    of the prompt: starting from the prompt, [max N prompt_len -
    prompt_len + 1] times the token the model chooses after the sequence
    so far is appended to it. *)
Theorem autoregressive_is_greedy_decoding (input : Tokenized) (model : Model)
    (N : nat) :
  input_ids input <> [] -> token_determined model ->
  autoregressive_sampling_with_pkv input model N
  = Ok (greedy_decode (next_of model) (input_ids input)
          (Nat.max N (length (input_ids input))
           - length (input_ids input) + 1)).
Proof.
  intros Hne Hdet.
  destruct (@ar_run_total input model N Hne) as [sa [Hra HA]].
  unfold autoregressive_sampling_with_pkv. rewrite Hra. cbn [bind].
  f_equal. rewrite <- (ai_prompt HA) at 1.
  apply (greedy_from_decode Hdet); [|apply HA].
  rewrite (ai_len HA), (ai_seq HA). lia.
Qed.

Lemma autoregressive_is_greedy_decoding_witness :
  input_ids prompt1 <> [] /\ token_determined counting_model
  /\ autoregressive_sampling_with_pkv prompt1 counting_model 4
     = Ok (greedy_decode (next_of counting_model) (input_ids prompt1)
             (Nat.max 4 (length (input_ids prompt1))
              - length (input_ids prompt1) + 1)).
Proof.
  assert (H1 : input_ids prompt1 <> []) by (simpl; discriminate).
  split; [exact H1|]. split; [exact counting_model_token_determined|].
  exact (@autoregressive_is_greedy_decoding prompt1 counting_model 4 H1
           counting_model_token_determined).
Defined.
